(** * Moving-average crossover backtest: [compute_strategy] and its callers

    A shallow embedding of [streamlit_app.py].  The module has one
    function with logic, [compute_strategy], which annotates a pandas
    DataFrame of daily prices with two simple moving averages, a crossover
    signal, a long-only position and the strategy's per-date return; [app]
    compounds the returns.

    Numbers.  A pandas float64 cell is modelled by [float]: an exact
    rational, one of the two infinities, or NaN.  The special cases of
    IEEE-754 arithmetic that the program can reach (division by zero, zero
    times infinity, comparisons with NaN) are written out; rounding,
    overflow and the sign of zero are not modelled.  Integer columns
    ([signal], [position]) hold the same numeric values.

    Objects.  A DataFrame is a mutable Python object: the heap maps
    references to frames, and every statement of [compute_strategy] that
    assigns a column or a cell is a write to the heap.  Exceptions are the
    [Err] results of the monad [M]. *)

From Stdlib Require Import QArith Qcanon.
From stdpp Require Import base numbers option list gmap strings fin_maps.

Local Open Scope Qc_scope.

(** * float64 values *)

Inductive float : Type :=
  | NaN
  | PInf
  | NInf
  | Fin (q : Qc).

Global Instance float_eq_dec : EqDecision float.
Proof. solve_decision. Defined.

Global Instance float_inhabited : Inhabited float := populate NaN.

Definition of_Z (z : Z) : float := Fin (Qc_of_Z z).

Definition is_finite (x : float) : Prop :=
  match x with Fin _ => True | _ => False end.

Definition is_infinite (x : float) : Prop :=
  match x with PInf | NInf => True | _ => False end.

Global Instance is_finite_dec x : Decision (is_finite x).
Proof. destruct x; simpl; apply _. Defined.

Global Instance is_infinite_dec x : Decision (is_infinite x).
Proof. destruct x; simpl; apply _. Defined.

Definition fneg (x : float) : float :=
  match x with
  | NaN => NaN
  | PInf => NInf
  | NInf => PInf
  | Fin a => Fin (- a)
  end.

Definition fadd (x y : float) : float :=
  match x, y with
  | NaN, _ | _, NaN => NaN
  | PInf, NInf | NInf, PInf => NaN
  | PInf, _ | _, PInf => PInf
  | NInf, _ | _, NInf => NInf
  | Fin a, Fin b => Fin (a + b)
  end.

Definition fsub (x y : float) : float := fadd x (fneg y).

(** The infinity with the sign of [s * q]; NaN when [q] is zero. *)
Definition signed_inf (positive : bool) (q : Qc) : float :=
  if decide (q = 0) then NaN
  else if bool_decide (0 < q) then (if positive then PInf else NInf)
  else (if positive then NInf else PInf).

Definition fmul (x y : float) : float :=
  match x, y with
  | NaN, _ | _, NaN => NaN
  | Fin a, Fin b => Fin (a * b)
  | PInf, PInf | NInf, NInf => PInf
  | PInf, NInf | NInf, PInf => NInf
  | PInf, Fin b | Fin b, PInf => signed_inf true b
  | NInf, Fin b | Fin b, NInf => signed_inf false b
  end.

Definition fdiv (x y : float) : float :=
  match x, y with
  | NaN, _ | _, NaN => NaN
  | Fin a, Fin b => if decide (b = 0) then signed_inf true a else Fin (a / b)
  | Fin _, (PInf | NInf) => Fin 0
  | (PInf | NInf), (PInf | NInf) => NaN
  | PInf, Fin b => if bool_decide (0 ≤ b) then PInf else NInf
  | NInf, Fin b => if bool_decide (0 ≤ b) then NInf else PInf
  end.

(** Python's [<] on floats: false as soon as an operand is NaN. *)
Definition flt (x y : float) : bool :=
  match x, y with
  | NaN, _ | _, NaN => false
  | Fin a, Fin b => bool_decide (a < b)
  | NInf, (PInf | Fin _) => true
  | Fin _, PInf => true
  | _, _ => false
  end.

Definition fle (x y : float) : bool :=
  match x, y with
  | NaN, _ | _, NaN => false
  | Fin a, Fin b => bool_decide (a ≤ b)
  | NInf, _ => true
  | _, PInf => true
  | _, _ => false
  end.

Definition fgt (x y : float) : bool := flt y x.
Definition fge (x y : float) : bool := fle y x.

(** Python's [==] on floats. *)
Definition feq (x y : float) : bool :=
  match x, y with
  | NaN, _ | _, NaN => false
  | _, _ => bool_decide (x = y)
  end.

(** * The pandas operations the program calls *)

Module pd.

(** [pd.notnull] on a scalar. *)
Definition notnull (x : float) : bool :=
  match x with NaN => false | _ => true end.

(** The window cleaning of [Rolling._prep_values]: infinities are
    replaced by NaN before the kernel runs, and NaN never counts as an
    observation. *)
Definition observation (x : float) : option Qc :=
  match x with Fin q => Some q | _ => None end.

Definition Qc_sum (qs : list Qc) : Qc := foldr Qcplus 0 qs.

(** [Series.rolling(window=w).mean()] at position [i].  With the default
    [min_periods = w] the mean exists only when the trailing window
    holds [w] observations; it is then their sum over [w].  The Cython
    kernel's running sum is replaced by the sum it maintains. *)
Definition rolling_mean_at (w : nat) (xs : list float) (i : nat) : float :=
  if decide (1 ≤ w ≤ S i)%nat then
    match mapM observation (take w (drop (S i - w) xs)) with
    | Some qs => Fin (Qc_sum qs / Qc_of_Z (Z.of_nat w))
    | None => NaN
    end
  else NaN.

Definition rolling_mean (w : nat) (xs : list float) : list float :=
  imap (λ i _, rolling_mean_at w xs i) xs.

(** [Series.shift(n)] for [n >= 0]. *)
Definition shift (n : nat) (xs : list float) : list float :=
  take (length xs) (replicate n NaN ++ xs).

(** [Series.fillna(v)]. *)
Definition fillna (v : float) (xs : list float) : list float :=
  (λ x, if notnull x then x else v) <$> xs.

(** [Series.ffill()]: every NaN takes the last value before it that is
    not NaN; leading NaNs stay. *)
Fixpoint ffill_from (last : float) (xs : list float) : list float :=
  match xs with
  | [] => []
  | x :: xs' =>
      let v := if notnull x then x else last in
      v :: ffill_from v xs'
  end.

Definition ffill (xs : list float) : list float := ffill_from NaN xs.

(** What [Series.pct_change()] does with its argument when the caller
    passes no [fill_method]: pandas before 3.0 forward-fills it
    ([fill_method='pad']), pandas 3.0 and later leave it as it is. *)
Inductive fill_method : Type :=
  | pad
  | no_fill.

(** [Series.pct_change()]: [data / data.shift(1) - 1]. *)
Definition pct_change (fm : fill_method) (xs : list float) : list float :=
  let data := match fm with pad => ffill xs | no_fill => xs end in
  (λ r, fsub r (of_Z 1)) <$> zip_with fdiv data (shift 1 data).

(** Elementwise product of two Series that share one index. *)
Definition mul (xs ys : list float) : list float := zip_with fmul xs ys.

(** [series + c]. *)
Definition add_scalar (xs : list float) (c : float) : list float :=
  (λ x, fadd x c) <$> xs.

(** [Series.prod()], which skips NaN. *)
Definition prod (xs : list float) : float :=
  foldl fmul (of_Z 1) (filter (λ x, notnull x = true) xs).

End pd.

Local Close Scope Qc_scope.

(** * DataFrames on the heap *)

(** A frame: the date index (one label per row, as day ordinals) and the
    named columns. *)
Record DataFrame : Type := {
  index : list Z;
  columns : gmap string (list float)
}.

Definition set_column (d : DataFrame) (name : string) (col : list float)
    : DataFrame :=
  {| index := index d; columns := <[name := col]> (columns d) |}.

(** The exceptions the program can raise.  [Dangling] is not one of
    Python's: it is the result of following a reference that is not in the
    heap, which no Python program holds. *)
Inductive exn : Type :=
  | KeyError
  | IndexError
  | ValueError
  | Dangling.

Inductive result (A : Type) : Type :=
  | Ok (a : A)
  | Err (e : exn).
Arguments Ok {A} a.
Arguments Err {A} e.

(** The state-and-exception monad of the program: a computation reads and
    writes the heap of frames and either returns or raises. *)
Definition M (A : Type) : Type := gmap nat DataFrame → result (A * gmap nat DataFrame).

Global Instance M_ret : MRet M := λ A a h, Ok (a, h).

Global Instance M_bind : MBind M := λ A B f m h,
  match m h with
  | Ok (a, h') => f a h'
  | Err e => Err e
  end.

Definition raise {A} (e : exn) : M A := λ _, Err e.

Definition deref (l : nat) : M DataFrame := λ h,
  match h !! l with
  | Some d => Ok (d, h)
  | None => Err Dangling
  end.

Definition store (l : nat) (d : DataFrame) : M () := λ h, Ok ((), <[l := d]> h).

(** A new object: a reference no frame of the heap has. *)
Definition alloc (d : DataFrame) : M nat := λ h,
  let l := fresh (dom h) in Ok (l, <[l := d]> h).

(** [df.copy()]: a new object with the same index and columns. *)
Definition copy (df : nat) : M nat :=
  d ← deref df; alloc d.

(** [len(df)]. *)
Definition len (df : nat) : M nat :=
  d ← deref df; mret (length (index d)).

(** [df[name]]. *)
Definition getitem (df : nat) (name : string) : M (list float) :=
  d ← deref df;
  match columns d !! name with
  | Some col => mret col
  | None => raise KeyError
  end.

(** [df[name] = col], for a column on the frame's own index. *)
Definition setitem (df : nat) (name : string) (col : list float) : M () :=
  d ← deref df; store df (set_column d name col).

(** [df[name] = c], a scalar broadcast over the rows. *)
Definition setitem_scalar (df : nat) (name : string) (c : float) : M () :=
  d ← deref df; store df (set_column d name (replicate (length (index d)) c)).

(** [df.index[i]]. *)
Definition index_get (df : nat) (i : nat) : M Z :=
  d ← deref df;
  match index d !! i with
  | Some lab => mret lab
  | None => raise IndexError
  end.

(** What [df.at[label, name]] evaluates to: the cell itself when one row
    carries the label, and a Series of the matching rows when several do
    (on an index with repeated labels [.at] falls back to [.loc]). *)
Inductive cell : Type :=
  | Scalar (x : float)
  | Rows (xs : list float).

Definition rows_with (lab : Z) (idx : list Z) (col : list float) : list float :=
  (filter (λ p, p.1 = lab) (zip idx col)).*2.

Definition at_get (df : nat) (lab : Z) (name : string) : M cell :=
  d ← deref df;
  match columns d !! name with
  | None => raise KeyError
  | Some col =>
      match rows_with lab (index d) col with
      | [] => raise KeyError
      | [x] => mret (Scalar x)
      | xs => mret (Rows xs)
      end
  end.

(** [df.at[label, name] = v]: every row that carries the label is set.
    (The program takes its labels from the index, so one always does.) *)
Definition set_rows (lab : Z) (v : float) (idx : list Z) (col : list float)
    : list float :=
  zip_with (λ l x, if decide (l = lab) then v else x) idx col.

Definition at_set (df : nat) (lab : Z) (name : string) (v : float) : M () :=
  d ← deref df;
  match columns d !! name with
  | None => raise KeyError
  | Some col => store df (set_column d name (set_rows lab v (index d) col))
  end.

(** The value of a test or comparison on cells: a Python bool, or a
    boolean Series when an operand is a Series. *)
Inductive pybool : Type :=
  | Bool (b : bool)
  | BoolRows (bs : list bool).

Definition notnull (c : cell) : pybool :=
  match c with
  | Scalar x => Bool (pd.notnull x)
  | Rows xs => BoolRows (pd.notnull <$> xs)
  end.

Definition compare (op : float → float → bool) (a b : cell) : pybool :=
  match a, b with
  | Scalar x, Scalar y => Bool (op x y)
  | Scalar x, Rows ys => BoolRows (op x <$> ys)
  | Rows xs, Scalar y => BoolRows ((λ x, op x y) <$> xs)
  | Rows xs, Rows ys => BoolRows (zip_with op xs ys)
  end.

(** The truth value Python's [if] and [and] ask for: that of a boolean
    Series is ambiguous and raises [ValueError]. *)
Definition truth (p : pybool) : M bool :=
  match p with
  | Bool b => mret b
  | BoolRows _ => raise ValueError
  end.

(** [a and b]: [b] is evaluated only when [a] is true. *)
Definition and_then (a b : M bool) : M bool :=
  x ← a; if x : bool then b else mret false.

(** [for x in xs: body]. *)
Fixpoint for_each {A} (body : A → M ()) (xs : list A) : M () :=
  match xs with
  | [] => mret ()
  | x :: rest => body x;; for_each body rest
  end.

(** [range(a, b)]. *)
Definition range (a b : nat) : list nat := seq a (b - a).

(** * The program *)

Definition BUY : float := of_Z 1.
Definition SELL : float := of_Z (-1).
Definition NONE : float := of_Z 0.
Definition LONG : float := of_Z 1.
Definition FLAT : float := of_Z 0.

(** The body of the signal loop, for one [i]. *)
Definition signal_body (df : nat) (i : nat) : M () :=
  here ← index_get df i;
  defined ← and_then
    (c ← at_get df here "sma_short"; truth (notnull c))
    (c ← at_get df here "sma_long"; truth (notnull c));
  if defined : bool then
    before ← index_get df (i - 1);
    prev_short ← at_get df before "sma_short";
    prev_long ← at_get df before "sma_long";
    curr_short ← at_get df here "sma_short";
    curr_long ← at_get df here "sma_long";
    up ← and_then (truth (compare fgt curr_short curr_long))
                  (truth (compare fle prev_short prev_long));
    if up : bool then at_set df here "signal" BUY
    else
      down ← and_then (truth (compare flt curr_short curr_long))
                      (truth (compare fge prev_short prev_long));
      if down : bool then at_set df here "signal" SELL
      else mret ()
  else mret ().

(** The position loop: [position] is the running variable, the result is
    the list [positions]. *)
Fixpoint carry_forward (position : float) (signal : list float) : list float :=
  match signal with
  | [] => []
  | sig :: rest =>
      let position :=
        if feq sig (of_Z 1) then LONG
        else if feq sig (of_Z (-1)) then FLAT
        else position in
      position :: carry_forward position rest
  end.

(** [compute_strategy(df, short_window, long_window)].  [fm] is the
    forward-fill default of the installed pandas (see [pd.fill_method]). *)
Definition compute_strategy (fm : pd.fill_method) (df : nat)
    (short_window long_window : nat) : M nat :=
  df ← copy df;
  close ← getitem df "close";
  setitem df "sma_short" (pd.rolling_mean short_window close);;
  close ← getitem df "close";
  setitem df "sma_long" (pd.rolling_mean long_window close);;
  setitem_scalar df "signal" NONE;;
  n ← len df;
  for_each (signal_body df) (range 1 n);;
  signal ← getitem df "signal";
  setitem df "position" (carry_forward FLAT signal);;
  close ← getitem df "close";
  setitem df "pct_change" (pd.fillna (of_Z 0) (pd.pct_change fm close));;
  position ← getitem df "position";
  pct ← getitem df "pct_change";
  setitem df "strategy_return"
    (pd.mul (pd.fillna (of_Z 0) (pd.shift 1 position)) pct);;
  mret df.

(** The two figures [app] prints, as fractions:
    [(result[name] + 1).prod() - 1]. *)
Definition compounded (result : nat) (name : string) : M float :=
  col ← getitem result name;
  mret (fsub (pd.prod (pd.add_scalar col (of_Z 1))) (of_Z 1)).

Definition buy_and_hold (result : nat) : M float := compounded result "pct_change".
Definition strategy_ret (result : nat) : M float := compounded result "strategy_return".

(** * The page

    [app] draws a Streamlit page.  The page is the log of the [st.*]
    calls that draw, in order (the spinner, which Streamlit removes when
    its block ends, is logged like the rest; layout arguments such as the
    chart's height are dropped); the values of the sidebar widgets are
    the inputs of a run.  The numbers that [app] formats into its two
    result lines are kept as numbers (the [:.2f] rendering is not
    modelled), and the frame handed to [st.dataframe] as its rows and
    columns.  The module keeps the names of the source ([app], [empty],
    [tail]) apart from those of the list library. *)

Module ui.

Inductive element : Type :=
  | st_title (text : string)
  | st_markdown (text : string)
  | st_error (text : string)
  | st_spinner (text : string)
  | st_subheader (text : string)
  | st_line_chart (ys : list float)
  | st_write (label : string) (percent : float)
  | st_dataframe (rows : list Z) (cols : list (string * list float)).

Global Instance element_eq_dec : EqDecision element.
Proof. solve_decision. Defined.

(** What the five sidebar widgets return: the ticker, the two dates (as
    day ordinals) and the two window lengths.  The number inputs are
    integer widgets with a least value of 1 and 2, so the windows are
    naturals. *)
Record Inputs : Type := {
  symbol : string;
  start_date : Z;
  end_date : Z;
  short_window : nat;
  long_window : nat
}.

(** A computation of [app]: it extends the page and runs on the heap. *)
Definition App (A : Type) : Type := list element → M (A * list element).

Global Instance App_ret : MRet App := λ A a page, mret (a, page).

Global Instance App_bind : MBind App := λ A B f m page,
  r ← m page; f r.1 r.2.

(** An [st.*] call: one more element on the page. *)
Definition emit (e : element) : App () := λ page, mret ((), page ++ [e]).

(** A computation on frames, which leaves the page alone. *)
Definition run {A} (m : M A) : App A := λ page, a ← m; mret (a, page).

(** [df.empty]: an axis of length 0. *)
Definition empty (df : nat) : M bool :=
  d ← deref df;
  mret (bool_decide (length (index d) = 0 ∨ columns d = ∅)).

(** [df.index], as the list of its labels. *)
Definition index_of (df : nat) : M (list Z) :=
  d ← deref df; mret (index d).

(** [df[[name1, name2, ...]]]: the named columns, in the order asked. *)
Fixpoint getitems (df : nat) (names : list string)
    : M (list (string * list float)) :=
  match names with
  | [] => mret []
  | name :: rest =>
      col ← getitem df name;
      cols ← getitems df rest;
      mret ((name, col) :: cols)
  end.

(** [.tail()]: the last five rows. *)
Definition tail {A} (xs : list A) : list A := drop (length xs - 5) xs.

Definition intro_text : string := "
        This tool fetches daily price data from Yahoo! Finance for the selected stock,
        computes short and long simple moving averages and evaluates a basic
        crossover strategy.  Adjust the parameters below to experiment with
        different settings.
        ".

Definition notes_text : string := "
        **Notes**

        * The strategy presented here is for educational purposes only and
          should not be used as financial advice.
        * Yahoo! Finance data may be subject to outages or limitations,
          especially for Indian equities.  If no data appears, try again later
          or consider installing and using the `nsepy` package for more
          reliable NSE data.
        ".

(** The columns of the result table. *)
Definition shown : list string :=
  ["close"; "sma_short"; "sma_long"; "signal"; "position"; "strategy_return"].

(** [app()].  [load_data] is the download: it goes through [yfinance]
    to the network and is taken as given, a computation that returns a
    reference to the frame it built.  The two early [return]s are the
    branches that end after [st.error]. *)
Definition app (fm : pd.fill_method) (load_data : string → Z → Z → M nat)
    (inputs : Inputs) : App () :=
  emit (st_title "Backtest Moving‑Average Strategy on NSE Stocks");;
  emit (st_markdown intro_text);;
  if bool_decide (end_date inputs ≤ start_date inputs)%Z then
    emit (st_error "Start date must be before end date.")
  else if bool_decide (long_window inputs ≤ short_window inputs) then
    emit (st_error "Short window must be less than long window.")
  else
    emit (st_spinner "Downloading data...");;
    data ← run (load_data (symbol inputs) (start_date inputs)
                  (end_date inputs));
    is_empty ← run (empty data);
    if is_empty : bool then
      emit (st_error "No data returned for the selected period.")
    else
      emit (st_subheader "Price Chart");;
      close ← run (getitem data "close");
      emit (st_line_chart close);;
      result ← run (compute_strategy fm data (short_window inputs)
                      (long_window inputs));
      emit (st_subheader "Backtest Results");;
      bh ← run (buy_and_hold result);
      sr ← run (strategy_ret result);
      emit (st_write "Buy and Hold Return" (fmul bh (of_Z 100)));;
      emit (st_write "Strategy Return" (fmul sr (of_Z 100)));;
      cols ← run (getitems result shown);
      rows ← run (index_of result);
      emit (st_dataframe (tail rows) (prod_map id tail <$> cols));;
      emit (st_markdown notes_text).

End ui.

(** * The columns in closed form

    What the loops and the column assignments of [compute_strategy]
    compute, as functions of the [close] column.  The proofs below show
    that the program builds exactly these. *)

(** The value the signal loop leaves at row [i]. *)
Definition signal_at (ss sl : list float) (i : nat) : float :=
  match i with
  | 0 => NONE
  | S j =>
      match ss !! i, sl !! i, ss !! j, sl !! j with
      | Some cs, Some cl, Some ps, Some pl =>
          if pd.notnull cs && pd.notnull cl then
            if fgt cs cl && fle ps pl then BUY
            else if flt cs cl && fge ps pl then SELL
            else NONE
          else NONE
      | _, _, _, _ => NONE
      end
  end.

Definition signals (ss sl : list float) : list float :=
  imap (λ i _, signal_at ss sl i) ss.

(** The signal column when the loop is about to run iteration [a]. *)
Definition signals_upto (a : nat) (ss sl : list float) : list float :=
  imap (λ i _, if decide (i < a) then signal_at ss sl i else NONE) ss.

(** [data / data.shift(1) - 1] along a series: each value against the
    one before it, the first against [prev]. *)
Fixpoint simple_returns (prev : float) (xs : list float) : list float :=
  match xs with
  | [] => []
  | x :: rest => fsub (fdiv x prev) (of_Z 1) :: simple_returns x rest
  end.


Definition signal_column (sw lw : nat) (close : list float) : list float :=
  signals (pd.rolling_mean sw close) (pd.rolling_mean lw close).

Definition position_column (sw lw : nat) (close : list float) : list float :=
  carry_forward FLAT (signal_column sw lw close).

Definition pct_column (fm : pd.fill_method) (close : list float) : list float :=
  pd.fillna (of_Z 0) (pd.pct_change fm close).

Definition return_column (fm : pd.fill_method) (sw lw : nat)
    (close : list float) : list float :=
  pd.mul (pd.fillna (of_Z 0) (pd.shift 1 (position_column sw lw close)))
         (pct_column fm close).

(** The frame [compute_strategy] builds from a frame [d] whose [close]
    column is [close]: the six columns are those the statements of the
    function assign, in the same order. *)
Definition annotate (fm : pd.fill_method) (d : DataFrame) (close : list float)
    (short_window long_window : nat) : DataFrame :=
  let sma_short := pd.rolling_mean short_window close in
  let sma_long := pd.rolling_mean long_window close in
  let signal := signals sma_short sma_long in
  let position := carry_forward FLAT signal in
  let pct := pd.fillna (of_Z 0) (pd.pct_change fm close) in
  let ret := pd.mul (pd.fillna (of_Z 0) (pd.shift 1 position)) pct in
  set_column (set_column (set_column (set_column (set_column (set_column d
    "sma_short" sma_short) "sma_long" sma_long) "signal" signal)
    "position" position) "pct_change" pct) "strategy_return" ret.

(** The columns [compute_strategy] adds. *)
Definition derived : list string :=
  ["sma_short"; "sma_long"; "signal"; "position"; "pct_change";
   "strategy_return"].

(** * The vocabulary of the theorems *)

(** A price series ready for the engine: a [close] column with one value
    per row, and no date twice. *)
Definition well_formed (d : DataFrame) (close : list float) : Prop :=
  columns d !! "close" = Some close ∧
  length close = length (index d) ∧
  NoDup (index d).

(** The call on the object [l] of heap [h] returns the frame [out]. *)
Definition returns (fm : pd.fill_method) (h : gmap nat DataFrame) (l : nat)
    (short_window long_window : nat) (out : DataFrame) : Prop :=
  ∃ r h', compute_strategy fm l short_window long_window h = Ok (r, h') ∧
          h' !! r = Some out.

(** The cell of column [name] at row [i]. *)
Definition cell_at (d : DataFrame) (name : string) (i : nat) : option float :=
  col ← columns d !! name; col !! i.



(** Signals and positions as the specification names them. *)
Inductive Signal : Type :=
  | Buy
  | Sell
  | NoSignal.

Inductive Position : Type :=
  | Long
  | Flat.

Definition signal_code (s : Signal) : float :=
  match s with
  | Buy => BUY
  | Sell => SELL
  | NoSignal => NONE
  end.

Definition position_code (p : Position) : float :=
  match p with
  | Long => LONG
  | Flat => FLAT
  end.

Definition signal_of_code (x : float) : Signal :=
  if decide (x = BUY) then Buy
  else if decide (x = SELL) then Sell
  else NoSignal.

(** The specification's step: BUY goes long, SELL goes flat, NONE keeps
    the position. *)
Definition next_position (p : Position) (s : Signal) : Position :=
  match s with
  | Buy => Long
  | Sell => Flat
  | NoSignal => p
  end.



(** * Example series *)

Definition frame_of (dates closes : list Z) : DataFrame :=
  {| index := dates; columns := {["close" := of_Z <$> closes]} |}.

(** Flat, a rise, then a drop: one upward and one downward cross of the
    2-day and 3-day averages. *)
Definition crossover_dates : list Z :=
  [1; 2; 3; 4; 5; 8; 9; 10; 11; 12; 15; 16]%Z.
Definition crossover_closes : list Z :=
  [10; 10; 10; 10; 10; 12; 14; 16; 5; 5; 5; 5]%Z.
Definition crossover_frame : DataFrame :=
  frame_of crossover_dates crossover_closes.

(** The crossover series with its last three closes changed. *)
Definition crossover_closes_then : list Z :=
  [10; 10; 10; 10; 10; 12; 14; 16; 5; 50; 1; 7]%Z.

(** Five rising closes. *)
Definition rising_closes : list Z := [100; 101; 102; 103; 104]%Z.
Definition rising_frame : DataFrame :=
  frame_of [1; 2; 3; 4; 5]%Z rising_closes.



(** A series with a gap. *)
Definition gap_closes : list float := [of_Z 100; NaN; of_Z 110; of_Z 121].
Definition gap_frame : DataFrame :=
  {| index := [1; 2; 3; 4]%Z; columns := {["close" := gap_closes]} |}.


(** * Notions for the signal loop on any index *)

(** The frames the signal loop works on: index [idx], the two averages,
    and a signal column of the index's length. *)
Definition loop_frame (idx : list Z) (ss sl : list float) (d : DataFrame)
    : Prop :=
  index d = idx ∧
  columns d !! "sma_short" = Some ss ∧
  columns d !! "sma_long" = Some sl ∧
  ∃ sg, columns d !! "signal" = Some sg ∧ length sg = length idx.

(** A computation that, from heap [s], raises [ValueError] or returns
    with the heap as it was. *)
Definition raises_or_returns {A} (m : M A) (s : gmap nat DataFrame) : Prop :=
  m s = Err ValueError ∨ ∃ a, m s = Ok (a, s).

(** A piece of the signal loop run on the frame [d] at reference [l]:
    it raises [ValueError] or leaves a frame of the same shape there. *)
Definition loop_outcome (l : nat) (h : gmap nat DataFrame) (idx : list Z)
    (ss sl : list float) (m : M ()) (d : DataFrame) : Prop :=
  m (<[l := d]> h) = Err ValueError ∨
  ∃ d', loop_frame idx ss sl d' ∧ m (<[l := d]> h) = Ok ((), <[l := d']> h).

(** * Tactics *)

(** Looks a column up through the [set_column]s above it. *)
Ltac solve_column :=
  unfold set_column; simpl;
  repeat (rewrite lookup_insert_eq || rewrite lookup_insert_ne by done);
  done.

(** Settles a closed, decidable statement by evaluating it. *)
Ltac by_evaluation := apply (bool_decide_unpack _); vm_compute; exact I.

(** * Proofs *)

(** ** Reading and writing one row of a frame with distinct labels *)

Lemma rows_with_absent lab idx col :
  lab ∉ idx → rows_with lab idx col = [].
Proof.
  unfold rows_with. revert col.
  induction idx as [|l idx IH]; intros col Hnin; [done|].
  destruct col as [|x col]; [done|]. simpl.
  apply not_elem_of_cons in Hnin as [Hne Hnin].
  rewrite filter_cons_False by (simpl; congruence).
  by apply IH.
Qed.

Lemma rows_with_unique lab idx col i x :
  NoDup idx → idx !! i = Some lab → col !! i = Some x →
  rows_with lab idx col = [x].
Proof.
  unfold rows_with. revert col i.
  induction idx as [|l idx IH]; intros col i Hnd Hi Hx; [done|].
  destruct col as [|y col]; [done|].
  apply NoDup_cons in Hnd as [Hnin Hnd]. simpl.
  destruct i as [|i]; simplify_eq/=.
  - rewrite filter_cons_True by done. simpl. f_equal.
    by apply (rows_with_absent lab idx col).
  - rewrite filter_cons_False; [by eapply IH|].
    simpl. intros ->. apply Hnin. by eapply list_elem_of_lookup_2.
Qed.

Lemma set_rows_absent lab v idx col :
  lab ∉ idx → length col ≤ length idx → set_rows lab v idx col = col.
Proof.
  unfold set_rows. revert col.
  induction idx as [|l idx IH]; intros [|x col] Hnin Hlen; simpl in *;
    try done; try lia.
  apply not_elem_of_cons in Hnin as [Hne Hnin].
  rewrite decide_False by congruence. f_equal. apply IH; [done|lia].
Qed.

Lemma set_rows_unique lab v idx col i :
  NoDup idx → idx !! i = Some lab → length col = length idx →
  set_rows lab v idx col = <[i := v]> col.
Proof.
  unfold set_rows. revert col i.
  induction idx as [|l idx IH]; intros [|x col] i Hnd Hi Hlen;
    simplify_eq/=.
  apply NoDup_cons in Hnd as [Hnin Hnd].
  destruct i as [|i]; simplify_eq/=.
  - rewrite decide_True by done. f_equal.
    apply (set_rows_absent lab v idx col); [done|lia].
  - rewrite decide_False; [f_equal; by apply IH|].
    intros ->. apply Hnin. by eapply list_elem_of_lookup_2.
Qed.

Lemma set_column_set_column d name c1 c2 :
  set_column (set_column d name c1) name c2 = set_column d name c2.
Proof. unfold set_column. simpl. by rewrite insert_insert_eq. Qed.

Lemma set_column_id d name col :
  columns d !! name = Some col → set_column d name col = d.
Proof.
  intros H. destruct d as [idx cols]. unfold set_column. simpl in *.
  by rewrite insert_id.
Qed.

(** ** The statements of the monad, one at a time *)

Section statements.
Context (l : nat) (d : DataFrame) (h : gmap nat DataFrame).

Lemma bind_ok {A B} (m : M A) (f : A → M B) h0 a h1 :
  m h0 = Ok (a, h1) → (m ≫= f) h0 = f a h1.
Proof. intros H. unfold mbind, M_bind. by rewrite H. Qed.

Lemma deref_ok : deref l (<[l := d]> h) = Ok (d, <[l := d]> h).
Proof. unfold deref. by rewrite lookup_insert_eq. Qed.

Lemma len_ok : len l (<[l := d]> h) = Ok (length (index d), <[l := d]> h).
Proof. unfold len. by rewrite (bind_ok _ _ _ _ _ deref_ok). Qed.

Lemma getitem_ok name col :
  columns d !! name = Some col →
  getitem l name (<[l := d]> h) = Ok (col, <[l := d]> h).
Proof.
  intros H. unfold getitem. rewrite (bind_ok _ _ _ _ _ deref_ok).
  by rewrite H.
Qed.

Lemma setitem_ok name col :
  setitem l name col (<[l := d]> h)
  = Ok ((), <[l := set_column d name col]> h).
Proof.
  unfold setitem. rewrite (bind_ok _ _ _ _ _ deref_ok).
  unfold store. by rewrite insert_insert_eq.
Qed.

Lemma setitem_scalar_ok name c :
  setitem_scalar l name c (<[l := d]> h)
  = Ok ((), <[l := set_column d name (replicate (length (index d)) c)]> h).
Proof.
  unfold setitem_scalar. rewrite (bind_ok _ _ _ _ _ deref_ok).
  unfold store. by rewrite insert_insert_eq.
Qed.

Lemma index_get_ok i lab :
  index d !! i = Some lab →
  index_get l i (<[l := d]> h) = Ok (lab, <[l := d]> h).
Proof.
  intros H. unfold index_get. rewrite (bind_ok _ _ _ _ _ deref_ok).
  by rewrite H.
Qed.

Lemma at_get_ok i lab name col x :
  NoDup (index d) → index d !! i = Some lab →
  columns d !! name = Some col → col !! i = Some x →
  at_get l lab name (<[l := d]> h) = Ok (Scalar x, <[l := d]> h).
Proof.
  intros Hnd Hi Hcol Hx. unfold at_get.
  rewrite (bind_ok _ _ _ _ _ deref_ok), Hcol.
  by rewrite (rows_with_unique lab (index d) col i x).
Qed.

Lemma at_set_ok i lab name col v :
  NoDup (index d) → index d !! i = Some lab →
  columns d !! name = Some col → length col = length (index d) →
  at_set l lab name v (<[l := d]> h)
  = Ok ((), <[l := set_column d name (<[i := v]> col)]> h).
Proof.
  intros Hnd Hi Hcol Hlen. unfold at_set.
  rewrite (bind_ok _ _ _ _ _ deref_ok), Hcol.
  rewrite (set_rows_unique lab v (index d) col i) by done.
  unfold store. by rewrite insert_insert_eq.
Qed.

Lemma at_get_notnull_ok i lab name col x :
  NoDup (index d) → index d !! i = Some lab →
  columns d !! name = Some col → col !! i = Some x →
  (c ← at_get l lab name; truth (notnull c)) (<[l := d]> h)
  = Ok (pd.notnull x, <[l := d]> h).
Proof.
  intros. by erewrite bind_ok by (by eapply at_get_ok).
Qed.

End statements.

Lemma and_then_ok (a b : M bool) h x h1 :
  a h = Ok (x, h1) →
  and_then a b h = if x then b h1 else Ok (false, h1).
Proof.
  intros H. unfold and_then. rewrite (bind_ok _ _ _ _ _ H). by destruct x.
Qed.

Lemma and_then_pure (a b : M bool) h x y :
  a h = Ok (x, h) → b h = Ok (y, h) → and_then a b h = Ok (x && y, h).
Proof.
  intros Ha Hb. rewrite (and_then_ok _ _ _ _ _ Ha). by destruct x.
Qed.

(** ** The signal loop *)

Lemma signals_upto_1 ss sl :
  signals_upto 1 ss sl = replicate (length ss) NONE.
Proof.
  apply list_eq. intros i. unfold signals_upto.
  rewrite list_lookup_imap.
  destruct (ss !! i) as [x|] eqn:E; simpl.
  - rewrite lookup_replicate_2 by (by eapply lookup_lt_Some).
    case_decide; [|done]. by replace i with 0 by lia.
  - symmetry. apply lookup_replicate_None. by apply lookup_ge_None.
Qed.

Lemma signals_upto_all ss sl a :
  length ss ≤ a → signals_upto a ss sl = signals ss sl.
Proof.
  intros Ha. apply list_eq. intros i. unfold signals_upto, signals.
  rewrite !list_lookup_imap.
  destruct (ss !! i) as [x|] eqn:E; simpl; [|done].
  apply lookup_lt_Some in E. by rewrite decide_True by lia.
Qed.

Lemma signals_upto_step ss sl a :
  a < length ss →
  <[a := signal_at ss sl a]> (signals_upto a ss sl) = signals_upto (S a) ss sl.
Proof.
  intros Ha. apply list_eq. intros i. unfold signals_upto.
  destruct (decide (a = i)) as [->|Hne].
  - rewrite list_lookup_insert_eq by (by rewrite length_imap).
    rewrite list_lookup_imap.
    destruct (lookup_lt_is_Some_2 ss i Ha) as [x ->]. simpl.
    by rewrite decide_True by lia.
  - rewrite list_lookup_insert_ne by done. rewrite !list_lookup_imap.
    destruct (ss !! i); simpl; [|done].
    repeat case_decide; try done; lia.
Qed.

Section signal_loop.
Context (l : nat) (h : gmap nat DataFrame).
Context (idx : list Z) (ss sl : list float).
Hypothesis idx_nodup : NoDup idx.
Hypothesis ss_length : length ss = length idx.
Hypothesis sl_length : length sl = length idx.

(** One iteration on a frame whose row [S i] still holds NONE. *)
Lemma signal_body_ok d sg i :
  index d = idx →
  columns d !! "sma_short" = Some ss →
  columns d !! "sma_long" = Some sl →
  columns d !! "signal" = Some sg →
  length sg = length idx →
  S i < length idx →
  sg !! S i = Some NONE →
  signal_body l (S i) (<[l := d]> h)
  = Ok ((), <[l := set_column d "signal" (<[S i := signal_at ss sl (S i)]> sg)]> h).
Proof.
  intros Hidx Hss Hsl Hsg Hlen Hi Hnone.
  assert (NoDup (index d)) as Hnd by (by rewrite Hidx).
  destruct (lookup_lt_is_Some_2 idx (S i)) as [here Hhere]; [lia|].
  destruct (lookup_lt_is_Some_2 idx i) as [before Hbefore]; [lia|].
  destruct (lookup_lt_is_Some_2 ss (S i)) as [cs Hcs]; [lia|].
  destruct (lookup_lt_is_Some_2 sl (S i)) as [cl Hcl]; [lia|].
  destruct (lookup_lt_is_Some_2 ss i) as [ps Hps]; [lia|].
  destruct (lookup_lt_is_Some_2 sl i) as [pl Hpl]; [lia|].
  rewrite <-Hidx in Hhere, Hbefore.
  unfold signal_at. rewrite Hcs, Hcl, Hps, Hpl.
  unfold signal_body.
  rewrite (bind_ok _ _ _ _ _ (index_get_ok l d h _ _ Hhere)).
  erewrite bind_ok; last first.
  { apply and_then_pure.
    - by apply (at_get_notnull_ok l d h (S i) here "sma_short" ss cs).
    - by apply (at_get_notnull_ok l d h (S i) here "sma_long" sl cl). }
  destruct (pd.notnull cs && pd.notnull cl).
  - replace (S i - 1) with i by lia.
    rewrite (bind_ok _ _ _ _ _ (index_get_ok l d h _ _ Hbefore)).
    rewrite (bind_ok _ _ _ _ _
      (at_get_ok l d h i before "sma_short" ss ps Hnd Hbefore Hss Hps)).
    rewrite (bind_ok _ _ _ _ _
      (at_get_ok l d h i before "sma_long" sl pl Hnd Hbefore Hsl Hpl)).
    rewrite (bind_ok _ _ _ _ _
      (at_get_ok l d h (S i) here "sma_short" ss cs Hnd Hhere Hss Hcs)).
    rewrite (bind_ok _ _ _ _ _
      (at_get_ok l d h (S i) here "sma_long" sl cl Hnd Hhere Hsl Hcl)).
    erewrite bind_ok by (by apply and_then_pure).
    destruct (fgt cs cl && fle ps pl).
    { apply at_set_ok; congruence. }
    erewrite bind_ok by (by apply and_then_pure).
    destruct (flt cs cl && fge ps pl).
    { apply at_set_ok; congruence. }
    by rewrite list_insert_id, set_column_id.
  - by rewrite list_insert_id, set_column_id.
Qed.

(** Iterations [a .. a + k - 1] of the signal loop. *)
Lemma signal_loop_ok d k a :
  index d = idx →
  columns d !! "sma_short" = Some ss →
  columns d !! "sma_long" = Some sl →
  1 ≤ a → a + k ≤ length idx →
  for_each (signal_body l) (seq a k)
    (<[l := set_column d "signal" (signals_upto a ss sl)]> h)
  = Ok ((), <[l := set_column d "signal" (signals_upto (a + k) ss sl)]> h).
Proof.
  intros Hidx Hss Hsl. revert a.
  induction k as [|k IH]; intros a Ha Hk; simpl.
  { by rewrite Nat.add_0_r. }
  destruct a as [|a]; [lia|].
  erewrite bind_ok; last first.
  { apply (signal_body_ok _ (signals_upto (S a) ss sl)); simpl;
      try done; try lia.
    - by rewrite lookup_insert_ne.
    - by rewrite lookup_insert_ne.
    - by rewrite lookup_insert_eq.
    - unfold signals_upto. by rewrite length_imap.
    - unfold signals_upto. rewrite list_lookup_imap.
      destruct (lookup_lt_is_Some_2 ss (S a)) as [x ->]; [lia|].
      simpl. by rewrite decide_False by lia. }
  rewrite set_column_set_column, signals_upto_step by lia.
  rewrite IH by lia. by replace (S a + S k) with (S (S a) + k) by lia.
Qed.

End signal_loop.

(** ** What [compute_strategy] returns *)

Lemma copy_ok l d h :
  h !! l = Some d →
  copy l h = Ok (fresh (dom h), <[fresh (dom h) := d]> h).
Proof.
  intros H. unfold copy, mbind, M_bind, deref. by rewrite H.
Qed.

Lemma length_rolling_mean w xs : length (pd.rolling_mean w xs) = length xs.
Proof. unfold pd.rolling_mean. by rewrite length_imap. Qed.

(** On a frame with distinct labels and a [close] column the function
    returns, and the frame it returns is [annotate]. *)
Lemma compute_strategy_ok fm l d h close sw lw :
  h !! l = Some d →
  columns d !! "close" = Some close →
  length close = length (index d) →
  NoDup (index d) →
  compute_strategy fm l sw lw h
  = Ok (fresh (dom h), <[fresh (dom h) := annotate fm d close sw lw]> h).
Proof.
  intros Hl Hclose Hlen Hnd. unfold compute_strategy.
  rewrite (bind_ok _ _ _ _ _ (copy_ok l d h Hl)).
  set (r := fresh (dom h)).
  set (ss := pd.rolling_mean sw close).
  set (sl := pd.rolling_mean lw close).
  assert (length ss = length (index d)) as Hss
    by (unfold ss; by rewrite length_rolling_mean).
  assert (length sl = length (index d)) as Hsl
    by (unfold sl; by rewrite length_rolling_mean).
  erewrite bind_ok by (by apply getitem_ok).
  erewrite bind_ok by apply setitem_ok.
  erewrite bind_ok by (apply getitem_ok; solve_column).
  erewrite bind_ok by apply setitem_ok.
  erewrite bind_ok by apply setitem_scalar_ok.
  erewrite bind_ok by apply len_ok.
  simpl. unfold range.
  set (d2 := set_column (set_column d "sma_short" ss) "sma_long" sl).
  assert (for_each (signal_body r) (seq 1 (length (index d) - 1))
            (<[r := set_column d2 "signal"
                      (replicate (length (index d)) NONE)]> h)
          = Ok ((), <[r := set_column d2 "signal" (signals ss sl)]> h))
    as Hloop.
  { rewrite <-Hss, <-(signals_upto_1 ss sl).
    destruct (decide (length ss = 0)) as [Hz|Hnz].
    - rewrite Hz. simpl. by rewrite signals_upto_all by lia.
    - rewrite (signal_loop_ok r h (index d) ss sl Hnd Hss Hsl d2
                 (length ss - 1) 1 eq_refl).
      + by rewrite signals_upto_all by lia.
      + unfold d2. solve_column.
      + unfold d2. solve_column.
      + done.
      + lia. }
  rewrite (bind_ok _ _ _ _ _ Hloop).
  erewrite bind_ok by (apply getitem_ok; solve_column).
  erewrite bind_ok by apply setitem_ok.
  erewrite bind_ok by (apply getitem_ok; unfold d2; solve_column).
  erewrite bind_ok by apply setitem_ok.
  erewrite bind_ok by (apply getitem_ok; solve_column).
  erewrite bind_ok by (apply getitem_ok; solve_column).
  erewrite bind_ok by apply setitem_ok.
  done.
Qed.

Lemma compute_strategy_columns fm h l d close sw lw :
  h !! l = Some d → well_formed d close →
  ∃ out, returns fm h l sw lw out ∧
    index out = index d ∧
    columns out !! "close" = Some close ∧
    columns out !! "sma_short" = Some (pd.rolling_mean sw close) ∧
    columns out !! "sma_long" = Some (pd.rolling_mean lw close) ∧
    columns out !! "signal" = Some (signal_column sw lw close) ∧
    columns out !! "position" = Some (position_column sw lw close) ∧
    columns out !! "pct_change" = Some (pct_column fm close) ∧
    columns out !! "strategy_return" = Some (return_column fm sw lw close).
Proof.
  intros Hl (Hclose & Hlen & Hnd).
  exists (annotate fm d close sw lw). split.
  { eexists _, _. split; [by apply compute_strategy_ok|].
    by rewrite lookup_insert_eq. }
  unfold annotate. repeat split; try solve_column.
Qed.

(** ** Facts about float comparisons *)

Lemma flt_asym x y : flt x y → flt y x → False.
Proof.
  destruct x, y; simpl; try done.
  rewrite !bool_decide_spec. intros H1 H2.
  by apply (Qclt_not_le _ _ H1), Qclt_le_weak.
Qed.

Lemma notnull_iff x : pd.notnull x = true ↔ x ≠ NaN.
Proof. by destruct x. Qed.

Lemma BUY_neq_NONE : BUY ≠ NONE.
Proof. intros [=]. Qed.

Lemma SELL_neq_NONE : SELL ≠ NONE.
Proof. intros [=]. Qed.

Lemma BUY_neq_SELL : BUY ≠ SELL.
Proof. intros [=]. Qed.

(** ** Lookups in the computed columns *)

Lemma lookup_rolling_mean w xs i :
  i < length xs →
  pd.rolling_mean w xs !! i = Some (pd.rolling_mean_at w xs i).
Proof.
  intros Hi. unfold pd.rolling_mean. rewrite list_lookup_imap.
  by destruct (lookup_lt_is_Some_2 xs i Hi) as [x ->].
Qed.

Lemma lookup_signals ss sl i :
  i < length ss → signals ss sl !! i = Some (signal_at ss sl i).
Proof.
  intros Hi. unfold signals. rewrite list_lookup_imap.
  by destruct (lookup_lt_is_Some_2 ss i Hi) as [x ->].
Qed.

Lemma length_signals ss sl : length (signals ss sl) = length ss.
Proof. unfold signals. by rewrite length_imap. Qed.

Lemma length_signal_column sw lw close :
  length (signal_column sw lw close) = length close.
Proof.
  unfold signal_column. by rewrite length_signals, length_rolling_mean.
Qed.

Lemma lookup_signal_column sw lw close i :
  i < length close →
  signal_column sw lw close !! i
  = Some (signal_at (pd.rolling_mean sw close) (pd.rolling_mean lw close) i).
Proof.
  intros Hi. unfold signal_column.
  by rewrite lookup_signals by (by rewrite length_rolling_mean).
Qed.

(** A signal is one of the three codes. *)
Lemma signal_at_cases ss sl i :
  signal_at ss sl i = BUY ∨ signal_at ss sl i = SELL ∨ signal_at ss sl i = NONE.
Proof.
  unfold signal_at. destruct i as [|j]; [auto|].
  repeat case_match; auto.
Qed.

(** No signal where a moving average is missing today. *)
Lemma signal_at_undefined_now ss sl i :
  ss !! i = Some NaN ∨ sl !! i = Some NaN → signal_at ss sl i = NONE.
Proof.
  unfold signal_at. destruct i as [|j]; [done|].
  intros [H|H]; rewrite H; repeat case_match; simplify_eq/=; try done.
  by rewrite andb_false_r in *.
Qed.

(** No signal where a moving average was missing the day before. *)
Lemma signal_at_undefined_before ss sl j :
  ss !! j = Some NaN ∨ sl !! j = Some NaN → signal_at ss sl (S j) = NONE.
Proof.
  unfold signal_at.
  intros [H|H]; rewrite H; repeat case_match; simplify_eq/=; try done.
  all: match goal with
       | H : (_ && _) = true |- _ => apply andb_true_iff in H as [? ?]
       end; unfold fge in *; simplify_eq/=;
       repeat match goal with
       | H : fle ?x NaN = true |- _ => by destruct x
       end.
Qed.

(** ** Cells and example frames *)

Lemma cell_at_column d name col i :
  columns d !! name = Some col → cell_at d name i = col !! i.
Proof. intros H. unfold cell_at. by rewrite H. Qed.

Lemma frame_of_well_formed dates closes :
  length closes = length dates → NoDup dates →
  well_formed (frame_of dates closes) (of_Z <$> closes).
Proof.
  intros Hlen Hnd. repeat split; [|done].
  simpl. by rewrite length_fmap.
Qed.

Lemma crossover_frame_well_formed :
  well_formed crossover_frame (of_Z <$> crossover_closes).
Proof.
  apply frame_of_well_formed; [reflexivity|].
  apply (bool_decide_unpack _). vm_compute. exact I.
Defined.

(** ** Crossover signals *)

(** C1. At every date after the first where both averages are defined
    today and the day before, the signal is BUY exactly when the short
    average is above the long one today and was at or below it the day
    before, SELL exactly when it is below today and was at or above the
    day before, and NONE otherwise; it is NONE at the first date and at
    every date where one of the four averages is missing. *)
Theorem crossover_signal fm h l d close sw lw :
  h !! l = Some d → well_formed d close →
  ∃ out, returns fm h l sw lw out ∧
    (∀ i cs cl ps pl,
       cell_at out "sma_short" (S i) = Some cs →
       cell_at out "sma_long" (S i) = Some cl →
       cell_at out "sma_short" i = Some ps →
       cell_at out "sma_long" i = Some pl →
       cs ≠ NaN → cl ≠ NaN → ps ≠ NaN → pl ≠ NaN →
       (cell_at out "signal" (S i) = Some BUY ↔ fgt cs cl ∧ fle ps pl) ∧
       (cell_at out "signal" (S i) = Some SELL ↔ flt cs cl ∧ fge ps pl) ∧
       (¬ (fgt cs cl ∧ fle ps pl) → ¬ (flt cs cl ∧ fge ps pl) →
        cell_at out "signal" (S i) = Some NONE)) ∧
    (0 < length close → cell_at out "signal" 0 = Some NONE) ∧
    (∀ i, i < length close →
       cell_at out "sma_short" i = Some NaN ∨
       cell_at out "sma_long" i = Some NaN ∨
       cell_at out "sma_short" (i - 1) = Some NaN ∨
       cell_at out "sma_long" (i - 1) = Some NaN →
       cell_at out "signal" i = Some NONE) ∧
    (∀ i, i < length close →
       cell_at out "signal" i = Some BUY ∨
       cell_at out "signal" i = Some SELL ∨
       cell_at out "signal" i = Some NONE).
Proof.
  intros Hl Hwf.
  destruct (compute_strategy_columns fm h l d close sw lw Hl Hwf)
    as (out & Hret & _ & _ & Hss & Hsl & Hsg & _).
  exists out. split; [done|].
  assert (∀ i, cell_at out "signal" i = signal_column sw lw close !! i)
    as Esg by (intros; by apply cell_at_column).
  assert (∀ i, cell_at out "sma_short" i = pd.rolling_mean sw close !! i)
    as Ess by (intros; by apply cell_at_column).
  assert (∀ i, cell_at out "sma_long" i = pd.rolling_mean lw close !! i)
    as Esl by (intros; by apply cell_at_column).
  clear Hss Hsl Hsg.
  set (ss := pd.rolling_mean sw close) in *.
  set (sl := pd.rolling_mean lw close) in *.
  split; [|split; [|split]].
  - intros i cs cl ps pl. rewrite !Esg, !Ess, !Esl.
    intros Hcs Hcl Hps Hpl Dcs Dcl Dps Dpl.
    assert (S i < length close) as Hi.
    { apply lookup_lt_Some in Hcs. unfold ss in Hcs.
      by rewrite length_rolling_mean in Hcs. }
    rewrite lookup_signal_column by done. fold ss sl.
    unfold signal_at. rewrite Hcs, Hcl, Hps, Hpl.
    apply notnull_iff in Dcs, Dcl. rewrite Dcs, Dcl. simpl.
    pose proof (flt_asym cs cl) as Hasym. unfold fgt, fge in *.
    pose proof BUY_neq_NONE. pose proof SELL_neq_NONE.
    pose proof BUY_neq_SELL.
    destruct (flt cl cs), (fle ps pl), (flt cs cl), (fle pl ps); simpl in *;
      intuition congruence.
  - intros Hpos. by rewrite Esg, lookup_signal_column by done.
  - intros i Hi. rewrite !Esg, !Ess, !Esl. intros Hnan.
    rewrite lookup_signal_column by done. f_equal. fold ss sl.
    destruct Hnan as [H|[H|H]].
    + apply signal_at_undefined_now; auto.
    + apply signal_at_undefined_now; auto.
    + destruct i as [|j]; [done|].
      replace (S j - 1) with j in H by lia.
      by apply signal_at_undefined_before.
  - intros i Hi. rewrite !Esg, lookup_signal_column by done. fold ss sl.
    destruct (signal_at_cases ss sl i) as [-> | [-> | ->]]; auto.
Qed.

Lemma crossover_signal_witness :
  ∃ out, returns pd.pad {[0 := crossover_frame]} 0 2 3 out ∧
         cell_at out "signal" 0 = Some NONE.
Proof.
  destruct (crossover_signal pd.pad {[0 := crossover_frame]} 0
              crossover_frame (of_Z <$> crossover_closes) 2 3)
    as (out & Hret & _ & Hfirst & _).
  - reflexivity.
  - exact crossover_frame_well_formed.
  - exists out. split; [exact Hret|]. apply Hfirst. simpl. lia.
Defined.

(** ** Rolling means *)



(** Too little history: no mean. *)
Lemma rolling_mean_at_short w xs i :
  S i < w → pd.rolling_mean_at w xs i = NaN.
Proof.
  intros Hi. unfold pd.rolling_mean_at. by rewrite decide_False by lia.
Qed.

(** A value in the window that is not a finite number: no mean. *)
Lemma rolling_mean_at_gap w xs i j x :
  j ≤ i → i < j + w → xs !! j = Some x → ¬ is_finite x →
  pd.rolling_mean_at w xs i = NaN.
Proof.
  intros Hji Hij Hx Hnf. unfold pd.rolling_mean_at.
  case_decide as Hw; [|done].
  destruct (mapM _ _) as [qs|] eqn:E; [|done].
  exfalso. apply mapM_Some_1 in E.
  assert (take w (drop (S i - w) xs) !! (j - (S i - w)) = Some x) as Hwin.
  { rewrite lookup_take_lt by lia. rewrite lookup_drop.
    by replace (S i - w + (j - (S i - w))) with j by lia. }
  destruct (Forall2_lookup_l _ _ _ _ _ E Hwin) as (q & _ & Hq).
  apply Hnf. by destruct x.
Qed.




(** ** Missing closes *)

(** C9. A moving average whose window holds a missing close is itself
    missing at that date; the signal is NONE wherever one of the two
    averages is missing; and the call returns whatever closes are
    missing. *)
Theorem missing_close_propagates fm h l d close sw lw :
  h !! l = Some d → well_formed d close →
  ∃ out, returns fm h l sw lw out ∧
    (∀ i j, j ≤ i → i < length close → close !! j = Some NaN →
       (i < j + sw → cell_at out "sma_short" i = Some NaN) ∧
       (i < j + lw → cell_at out "sma_long" i = Some NaN)) ∧
    (∀ i, cell_at out "sma_short" i = Some NaN ∨
          cell_at out "sma_long" i = Some NaN →
          cell_at out "signal" i = Some NONE).
Proof.
  intros Hl Hwf.
  destruct (compute_strategy_columns fm h l d close sw lw Hl Hwf)
    as (out & Hret & _ & _ & Hss & Hsl & Hsg & _).
  exists out. split; [done|]. split.
  - intros i j Hji Hi Hnan.
    rewrite (cell_at_column out _ _ _ Hss), (cell_at_column out _ _ _ Hsl).
    rewrite !lookup_rolling_mean by done.
    split; intros Hwin; f_equal;
      apply (rolling_mean_at_gap _ close i j NaN); simpl; auto.
  - intros i.
    rewrite (cell_at_column out _ _ _ Hss), (cell_at_column out _ _ _ Hsl),
      (cell_at_column out _ _ _ Hsg).
    intros Hnan.
    assert (i < length close) as Hi.
    { destruct Hnan as [H|H]; apply lookup_lt_Some in H;
        by rewrite length_rolling_mean in H. }
    rewrite lookup_signal_column by done. f_equal.
    by apply signal_at_undefined_now.
Qed.

Lemma gap_frame_well_formed :
  well_formed gap_frame gap_closes.
Proof.
  repeat split. apply (bool_decide_unpack _). vm_compute. exact I.
Defined.

Lemma missing_close_propagates_witness :
  ∃ out, returns pd.pad {[0 := gap_frame]} 0 2 3 out ∧
         cell_at out "sma_short" 2 = Some NaN ∧
         cell_at out "sma_long" 3 = Some NaN ∧
         cell_at out "signal" 2 = Some NONE.
Proof.
  destruct (missing_close_propagates pd.pad {[0 := gap_frame]} 0 gap_frame
              gap_closes 2 3)
    as (out & Hret & Hsma & Hsig).
  - reflexivity.
  - exact gap_frame_well_formed.
  - exists out. split; [exact Hret|].
    assert (cell_at out "sma_short" 2 = Some NaN) as Hshort.
    { apply (Hsma 2 1); [lia|simpl; lia|reflexivity|lia]. }
    split; [exact Hshort|]. split.
    + apply (Hsma 3 1); [lia|simpl; lia|reflexivity|lia].
    + apply Hsig. by left.
Defined.

(** ** Positions *)

Lemma signal_code_of_code x :
  x = BUY ∨ x = SELL ∨ x = NONE → signal_code (signal_of_code x) = x.
Proof.
  unfold signal_of_code. intros [-> | [-> | ->]]; by repeat case_decide.
Qed.

(** The signal column is a list of codes. *)
Lemma signal_column_codes sw lw close :
  ∃ sigs, signal_column sw lw close = signal_code <$> sigs.
Proof.
  exists (signal_of_code <$> signal_column sw lw close).
  rewrite <-list_fmap_compose. symmetry.
  rewrite <-(list_fmap_id (signal_column sw lw close)) at 2.
  apply list_fmap_ext. intros i x Hx. simpl.
  apply signal_code_of_code.
  assert (i < length close) as Hi.
  { apply lookup_lt_Some in Hx. by rewrite length_signal_column in Hx. }
  rewrite lookup_signal_column in Hx by done. simplify_eq.
  apply signal_at_cases.
Qed.

Lemma carry_forward_code p s rest :
  carry_forward (position_code p) (signal_code s :: rest)
  = position_code (next_position p s)
    :: carry_forward (position_code (next_position p s)) rest.
Proof. by destruct p, s. Qed.

Lemma length_carry_forward p sg : length (carry_forward p sg) = length sg.
Proof. revert p. induction sg; intros; simpl; [done|]. by rewrite IHsg. Qed.

(** The position loop computes, at each date, the fold of the
    specification's step over the signals up to that date. *)
Lemma lookup_carry_forward p sigs i :
  i < length sigs →
  carry_forward (position_code p) (signal_code <$> sigs) !! i
  = Some (position_code (foldl next_position p (take (S i) sigs))).
Proof.
  revert p i. induction sigs as [|s sigs IH]; intros p i Hi.
  { simpl in Hi. lia. }
  rewrite fmap_cons, carry_forward_code. destruct i as [|i]; [done|].
  simpl in *. apply IH. lia.
Qed.

(** C2. The position column is the fold that starts FLAT and, date by
    date, goes LONG on BUY, FLAT on SELL and keeps its value on NONE.  So
    the position differs from the previous date's only where the signal
    is not NONE, and the first date is FLAT with signal NONE. *)
Theorem position_is_fold fm h l d close sw lw :
  h !! l = Some d → well_formed d close →
  ∃ out sigs, returns fm h l sw lw out ∧
    length sigs = length close ∧
    columns out !! "signal" = Some (signal_code <$> sigs) ∧
    (∀ i, i < length close →
       cell_at out "position" i
       = Some (position_code (foldl next_position Flat (take (S i) sigs)))) ∧
    (∀ i p q,
       cell_at out "position" i = Some p →
       cell_at out "position" (S i) = Some q →
       p ≠ q → cell_at out "signal" (S i) ≠ Some NONE) ∧
    (0 < length close →
       cell_at out "position" 0 = Some FLAT ∧
       cell_at out "signal" 0 = Some NONE).
Proof.
  intros Hl Hwf.
  destruct (compute_strategy_columns fm h l d close sw lw Hl Hwf)
    as (out & Hret & _ & _ & _ & _ & Hsg & Hpos & _).
  destruct (signal_column_codes sw lw close) as [sigs Hsigs].
  assert (length sigs = length close) as Hlen.
  { by rewrite <-(length_signal_column sw lw close), Hsigs, length_fmap. }
  assert (∀ i, i < length close →
            cell_at out "position" i
            = Some (position_code (foldl next_position Flat (take (S i) sigs))))
    as Hfold.
  { intros i Hi. rewrite (cell_at_column out _ _ _ Hpos).
    unfold position_column. rewrite Hsigs.
    apply (lookup_carry_forward Flat). lia. }
  assert (∀ i, cell_at out "position" i = position_column sw lw close !! i)
    as Epos by (intros; by apply cell_at_column).
  assert (∀ i, cell_at out "signal" i = (signal_code <$> sigs) !! i)
    as Esg by (intros; rewrite <-Hsigs; by apply cell_at_column).
  assert (0 < length close → sigs !! 0 = Some NoSignal) as Hfirst.
  { intros Hpos0.
    pose proof (lookup_signal_column sw lw close 0 Hpos0) as H0.
    rewrite Hsigs, list_lookup_fmap in H0. simpl in H0.
    by destruct (sigs !! 0) as [[| |]|]; simplify_eq/=. }
  exists out, sigs. rewrite <-Hsigs.
  split; [done|]. split; [done|]. split; [done|]. split; [done|]. split.
  - intros i p q Hp Hq Hne. rewrite Esg, list_lookup_fmap.
    assert (S i < length close) as Hi.
    { rewrite Epos in Hq. apply lookup_lt_Some in Hq.
      unfold position_column in Hq.
      by rewrite length_carry_forward, length_signal_column in Hq. }
    rewrite Hfold in Hp, Hq by lia.
    destruct (lookup_lt_is_Some_2 sigs (S i)) as [s Hs]; [lia|].
    rewrite (take_S_r _ _ _ Hs), foldl_snoc in Hq.
    rewrite Hs. simpl. intros [= Hnone].
    by destruct s; simpl in *; simplify_eq.
  - intros Hpos0. rewrite Hfold, Esg, list_lookup_fmap by done.
    destruct sigs as [|s sigs']; [simpl in *; lia|].
    specialize (Hfirst Hpos0). by simplify_eq/=.
Qed.

Lemma position_is_fold_witness :
  ∃ out, returns pd.pad {[0 := crossover_frame]} 0 2 3 out ∧
         cell_at out "position" 0 = Some FLAT.
Proof.
  destruct (position_is_fold pd.pad {[0 := crossover_frame]} 0
              crossover_frame (of_Z <$> crossover_closes) 2 3)
    as (out & sigs & Hret & _ & _ & _ & _ & Hfirst).
  - reflexivity.
  - exact crossover_frame_well_formed.
  - exists out. split; [exact Hret|]. apply Hfirst. simpl. lia.
Defined.

(** ** Percentage changes *)

Lemma Qc_of_Z_0 : Qc_of_Z 0 = 0%Qc.
Proof. by apply Qc_is_canon. Qed.

Lemma Qc_of_Z_1 : Qc_of_Z 1 = 1%Qc.
Proof. by apply Qc_is_canon. Qed.

Lemma Fin_zero q : q = 0%Qc → Fin q = of_Z 0.
Proof. intros ->. unfold of_Z. by rewrite Qc_of_Z_0. Qed.


Lemma zip_with_previous prev xs :
  (λ r, fsub r (of_Z 1)) <$> zip_with fdiv xs (prev :: xs)
  = simple_returns prev xs.
Proof.
  revert prev. induction xs as [|x xs IH]; intros prev; [done|].
  simpl. f_equal. apply IH.
Qed.

Lemma pct_change_no_fill xs :
  pd.pct_change pd.no_fill xs = simple_returns NaN xs.
Proof.
  unfold pd.pct_change, pd.shift. simpl replicate. simpl app.
  by rewrite zip_with_take_r, zip_with_previous.
Qed.

Lemma pct_change_pad xs :
  pd.pct_change pd.pad xs = simple_returns NaN (pd.ffill xs).
Proof.
  unfold pd.pct_change, pd.shift. simpl replicate. simpl app.
  by rewrite zip_with_take_r, zip_with_previous.
Qed.

Lemma length_simple_returns prev xs :
  length (simple_returns prev xs) = length xs.
Proof. revert prev. induction xs; intros; simpl; [done|]. by rewrite IHxs. Qed.


Lemma length_ffill_from last xs : length (pd.ffill_from last xs) = length xs.
Proof. revert last. induction xs; intros; simpl; [done|]. by rewrite IHxs. Qed.

Lemma length_ffill xs : length (pd.ffill xs) = length xs.
Proof. apply length_ffill_from. Qed.



Lemma length_pct_column fm xs : length (pct_column fm xs) = length xs.
Proof.
  unfold pct_column, pd.fillna. rewrite length_fmap.
  destruct fm.
  - by rewrite pct_change_pad, length_simple_returns, length_ffill.
  - by rewrite pct_change_no_fill, length_simple_returns.
Qed.





(** ** Strategy returns *)

Lemma lookup_shift_0 xs : 0 < length xs → pd.shift 1 xs !! 0 = Some NaN.
Proof.
  intros H. unfold pd.shift. simpl replicate. simpl app.
  rewrite lookup_take_lt by done. done.
Qed.

Lemma lookup_shift_S xs i :
  S i < length xs → pd.shift 1 xs !! S i = xs !! i.
Proof.
  intros H. unfold pd.shift. simpl replicate. simpl app.
  rewrite lookup_take_lt by done. done.
Qed.

Lemma length_shift n xs : length (pd.shift n xs) = length xs.
Proof.
  unfold pd.shift. rewrite length_take, length_app. lia.
Qed.

Lemma length_position_column sw lw close :
  length (position_column sw lw close) = length close.
Proof.
  unfold position_column.
  by rewrite length_carry_forward, length_signal_column.
Qed.


(** A position is LONG or FLAT. *)
Lemma position_column_values sw lw close i p :
  position_column sw lw close !! i = Some p → p = LONG ∨ p = FLAT.
Proof.
  intros Hp. unfold position_column in Hp.
  assert (i < length close) as Hi.
  { apply lookup_lt_Some in Hp.
    by rewrite length_carry_forward, length_signal_column in Hp. }
  destruct (signal_column_codes sw lw close) as [sigs Hsigs].
  rewrite Hsigs in Hp.
  rewrite (lookup_carry_forward Flat) in Hp.
  - simplify_eq. destruct (foldl _ _ _); auto.
  - by rewrite <-(length_fmap signal_code), <-Hsigs, length_signal_column.
Qed.


Lemma lookup_return_column_S fm sw lw close i p c :
  position_column sw lw close !! i = Some p →
  pct_column fm close !! S i = Some c →
  return_column fm sw lw close !! S i = Some (fmul p c).
Proof.
  intros Hp Hc. unfold return_column, pd.mul, pd.fillna.
  rewrite lookup_zip_with, list_lookup_fmap.
  rewrite lookup_shift_S.
  - rewrite Hp, Hc. simpl.
    by destruct (position_column_values _ _ _ _ _ Hp) as [-> | ->].
  - apply lookup_lt_Some in Hc.
    by rewrite length_pct_column in Hc; rewrite length_position_column.
Qed.

(** ** Every column at a date is computed from the closes up to it *)

Lemma rolling_mean_at_take w xs k i :
  i < k → pd.rolling_mean_at w (take k xs) i = pd.rolling_mean_at w xs i.
Proof.
  intros Hi. unfold pd.rolling_mean_at. case_decide as Hw; [|done].
  replace (take w (drop (S i - w) (take k xs)))
    with (take w (drop (S i - w) xs)); [done|].
  apply list_eq. intros j. destruct (decide (j < w)) as [Hj|Hj].
  - rewrite !lookup_take_lt, !lookup_drop by done.
    by rewrite lookup_take_lt by lia.
  - by rewrite !lookup_take_ge by lia.
Qed.

Lemma rolling_mean_take w xs k :
  take k (pd.rolling_mean w xs) = pd.rolling_mean w (take k xs).
Proof.
  apply list_eq. intros i. unfold pd.rolling_mean.
  destruct (decide (i < k)) as [Hi|Hi].
  - rewrite lookup_take_lt, !list_lookup_imap, lookup_take_lt by done.
    destruct (xs !! i); simpl; [|done].
    by rewrite rolling_mean_at_take.
  - rewrite lookup_take_ge by lia. symmetry. apply lookup_ge_None.
    rewrite length_imap, length_take. lia.
Qed.

Lemma signal_at_take ss sl k i :
  i < k → signal_at (take k ss) (take k sl) i = signal_at ss sl i.
Proof.
  intros Hi. unfold signal_at. destruct i as [|j]; [done|].
  by rewrite !lookup_take_lt by lia.
Qed.

Lemma signals_take ss sl k :
  take k (signals ss sl) = signals (take k ss) (take k sl).
Proof.
  apply list_eq. intros i. unfold signals.
  destruct (decide (i < k)) as [Hi|Hi].
  - rewrite lookup_take_lt, !list_lookup_imap, lookup_take_lt by done.
    destruct (ss !! i); simpl; [|done].
    by rewrite signal_at_take.
  - rewrite lookup_take_ge by lia. symmetry. apply lookup_ge_None.
    rewrite length_imap, length_take. lia.
Qed.

Lemma carry_forward_take p sg k :
  take k (carry_forward p sg) = carry_forward p (take k sg).
Proof.
  revert p k. induction sg as [|s sg IH]; intros p [|k]; simpl; try done.
  by rewrite IH.
Qed.

Lemma shift_take xs k : take k (pd.shift 1 xs) = pd.shift 1 (take k xs).
Proof.
  apply list_eq. intros i.
  destruct (decide (i < k ∧ i < length xs)) as [[Hk Hi]|Hn].
  - rewrite lookup_take_lt by done.
    destruct i as [|j].
    + rewrite !lookup_shift_0; [done| |done]. rewrite length_take. lia.
    + rewrite !lookup_shift_S; [|rewrite length_take; lia|done].
      by rewrite lookup_take_lt by lia.
  - transitivity (@None float); [|symmetry]; apply lookup_ge_None.
    + rewrite length_take, length_shift. lia.
    + rewrite length_shift, length_take. lia.
Qed.

Lemma fillna_take v xs k : take k (pd.fillna v xs) = pd.fillna v (take k xs).
Proof. unfold pd.fillna. by rewrite fmap_take. Qed.

Lemma ffill_from_take last xs k :
  take k (pd.ffill_from last xs) = pd.ffill_from last (take k xs).
Proof.
  revert last k. induction xs as [|x xs IH]; intros last [|k]; simpl; try done.
  by rewrite IH.
Qed.

Lemma simple_returns_take prev xs k :
  take k (simple_returns prev xs) = simple_returns prev (take k xs).
Proof.
  revert prev k. induction xs as [|x xs IH]; intros prev [|k]; simpl; try done.
  by rewrite IH.
Qed.

Lemma pct_column_take fm xs k :
  take k (pct_column fm xs) = pct_column fm (take k xs).
Proof.
  unfold pct_column. rewrite fillna_take. f_equal. destruct fm.
  - rewrite !pct_change_pad, simple_returns_take. unfold pd.ffill.
    by rewrite ffill_from_take.
  - by rewrite !pct_change_no_fill, simple_returns_take.
Qed.

Lemma position_column_take sw lw xs k :
  take k (position_column sw lw xs) = position_column sw lw (take k xs).
Proof.
  unfold position_column, signal_column.
  by rewrite carry_forward_take, signals_take, !rolling_mean_take.
Qed.

Lemma return_column_take fm sw lw xs k :
  take k (return_column fm sw lw xs) = return_column fm sw lw (take k xs).
Proof.
  unfold return_column, pd.mul.
  by rewrite zip_with_take, fillna_take, shift_take, position_column_take,
    pct_column_take.
Qed.




(** ** Changes between zero or missing closes *)








(** The heap that holds one frame, at reference 0. *)
Lemma lookup_only_frame (d : DataFrame) :
  ({[0 := d]} : gmap nat DataFrame) !! 0 = Some d.
Proof. apply lookup_singleton_eq. Qed.





(** ** Returns across a missing close *)





(** ** Series shorter than the long window *)









(** A flat position earns nothing on a finite change. *)
Lemma fmul_flat c : is_finite c → fmul FLAT c = of_Z 0.
Proof.
  destruct c as [| | |q]; try done. intros _. simpl.
  apply Fin_zero. rewrite Qc_of_Z_0. ring.
Qed.





(** ** The input frame *)

Lemma columns_annotate_other fm d close sw lw name :
  name ∉ derived →
  columns (annotate fm d close sw lw) !! name = columns d !! name.
Proof.
  intros Hname. unfold derived in Hname.
  repeat (apply not_elem_of_cons in Hname as [? Hname]).
  unfold annotate, set_column. simpl.
  by rewrite !lookup_insert_ne by done.
Qed.

(** C8. The call leaves the input object, and every other object of the
    heap, as it was; what it returns is a new object, with the input's
    index (so its length) and the input's own columns. *)
Theorem input_not_mutated fm h l d close sw lw :
  h !! l = Some d → well_formed d close →
  ∃ r h' out, compute_strategy fm l sw lw h = Ok (r, h') ∧
    h' !! l = Some d ∧
    (∀ k, is_Some (h !! k) → h' !! k = h !! k) ∧
    h !! r = None ∧ r ≠ l ∧
    h' !! r = Some out ∧
    index out = index d ∧
    length (index out) = length (index d) ∧
    (∀ name, name ∉ derived → columns out !! name = columns d !! name).
Proof.
  intros Hl (Hclose & Hlen & Hnd).
  pose proof (is_fresh (dom h)) as Hfresh.
  apply not_elem_of_dom in Hfresh.
  exists (fresh (dom h)), (<[fresh (dom h) := annotate fm d close sw lw]> h),
    (annotate fm d close sw lw).
  assert (fresh (dom h) ≠ l) as Hne by (intros E; congruence).
  split; [by apply compute_strategy_ok|].
  split; [by rewrite lookup_insert_ne|].
  split.
  { intros k [x Hk]. rewrite lookup_insert_ne; [done|]. congruence. }
  split; [done|]. split; [done|].
  split; [by rewrite lookup_insert_eq|].
  split; [done|]. split; [done|].
  intros name. apply columns_annotate_other.
Qed.

Lemma input_not_mutated_witness :
  ∃ r h' out,
    compute_strategy pd.pad 0 2 3 {[0 := crossover_frame]} = Ok (r, h') ∧
    h' !! 0 = Some crossover_frame ∧
    h' !! r = Some out ∧
    index out = crossover_dates.
Proof.
  destruct (input_not_mutated pd.pad {[0 := crossover_frame]} 0
              crossover_frame (of_Z <$> crossover_closes) 2 3)
    as (r & h' & out & Hrun & Hsame & _ & _ & _ & Hout & Hidx & _).
  - reflexivity.
  - exact crossover_frame_well_formed.
  - exists r, h', out. repeat split; assumption.
Defined.

(** ** Compounded buy-and-hold return *)







Lemma rising_frame_well_formed :
  well_formed rising_frame (of_Z <$> rising_closes).
Proof. apply frame_of_well_formed; [reflexivity|]. by_evaluation. Defined.



(** ** The engine on concrete series *)

(** The crossover series: the 2-day average first exceeds the 3-day one
    at row 5, and falls back below it at row 8 after the drop to 5. *)
Example crossover_scenario :
  ∃ out, returns pd.pad {[0 := crossover_frame]} 0 2 3 out ∧
    columns out !! "signal"
    = Some (of_Z <$> [0; 0; 0; 0; 0; 1; 0; 0; -1; 0; 0; 0]%Z) ∧
    columns out !! "position"
    = Some (of_Z <$> [0; 0; 0; 0; 0; 1; 1; 1; 0; 0; 0; 0]%Z).
Proof.
  destruct (compute_strategy_columns pd.pad {[0 := crossover_frame]} 0
              crossover_frame (of_Z <$> crossover_closes) 2 3
              (lookup_only_frame _) crossover_frame_well_formed)
    as (out & Hret & _ & _ & _ & _ & Hsg & Hpos & _).
  exists out. split; [done|]. rewrite Hsg, Hpos. split; by_evaluation.
Qed.

(** A date that occurs twice: [df.at] yields a Series for it, and the
    test of the signal loop raises. *)
Example repeated_date_raises :
  compute_strategy pd.pad 0 2 3 {[0 := frame_of [1; 2; 2]%Z [10; 11; 12]%Z]}
  = Err ValueError.
Proof. vm_compute. reflexivity. Qed.

(** A frame without a [close] column. *)
Example no_close_raises :
  compute_strategy pd.pad 0 2 3 {[0 := {| index := [1]%Z; columns := ∅ |}]}
  = Err KeyError.
Proof. vm_compute. reflexivity. Qed.

(** * More about the engine *)

(** ** Frames the engine refuses, and the empty frame *)

Lemma bind_err {A B} (m : M A) (f : A → M B) h e :
  m h = Err e → (m ≫= f) h = Err e.
Proof. intros H. unfold mbind, M_bind. by rewrite H. Qed.

(** X2. A frame without a [close] column: the first statement that
    reads the column raises [KeyError], whatever else the frame holds. *)
Theorem missing_close_column_raises fm h l d sw lw :
  h !! l = Some d → columns d !! "close" = None →
  compute_strategy fm l sw lw h = Err KeyError.
Proof.
  intros Hl Hnone. unfold compute_strategy.
  rewrite (bind_ok _ _ _ _ _ (copy_ok l d h Hl)).
  apply bind_err. unfold getitem.
  rewrite (bind_ok _ _ _ _ _ (deref_ok _ _ _)). by rewrite Hnone.
Qed.

Lemma missing_close_column_raises_witness :
  compute_strategy pd.pad 0 5 10
    {[0 := {| index := [1; 2]%Z;
              columns := {["open" := [of_Z 3; of_Z 4]]} |}]}
  = Err KeyError.
Proof.
  apply (missing_close_column_raises pd.pad _ 0
           {| index := [1; 2]%Z; columns := {["open" := [of_Z 3; of_Z 4]]} |}).
  - reflexivity.
  - reflexivity.
Defined.

Lemma prod_nil : pd.prod [] = of_Z 1.
Proof. done. Qed.

Lemma one_less_one : fsub (of_Z 1) (of_Z 1) = of_Z 0.
Proof. simpl. apply Fin_zero. ring. Qed.

(** X3. A frame with no rows: the signal loop runs no iteration, the
    call returns a frame with no rows whose six derived columns are
    empty, and both compounded figures of [app] are 0 (an empty
    product is 1). *)
Theorem empty_frame_annotated fm h l d close sw lw :
  h !! l = Some d → well_formed d close → index d = [] →
  ∃ r h' out, compute_strategy fm l sw lw h = Ok (r, h') ∧
    h' !! r = Some out ∧
    index out = [] ∧
    (∀ name, name ∈ derived → columns out !! name = Some []) ∧
    buy_and_hold r h' = Ok (of_Z 0, h') ∧
    strategy_ret r h' = Ok (of_Z 0, h').
Proof.
  intros Hl Hwf Hempty. pose proof Hwf as (Hclose & Hlen & Hnd).
  assert (close = []) as ->.
  { apply length_zero_iff_nil. by rewrite Hlen, Hempty. }
  exists (fresh (dom h)), (<[fresh (dom h) := annotate fm d [] sw lw]> h),
    (annotate fm d [] sw lw).
  split; [by apply compute_strategy_ok|].
  split; [by rewrite lookup_insert_eq|].
  split; [done|]. split; [|split].
  - intros name Hname. unfold derived in Hname.
    repeat (apply elem_of_cons in Hname as [->|Hname]);
      [..|by apply elem_of_nil in Hname];
      unfold annotate; destruct fm; solve_column.
  - unfold buy_and_hold, compounded.
    erewrite bind_ok by
      (apply getitem_ok; unfold annotate; destruct fm; solve_column).
    unfold mret, M_ret. do 2 f_equal.
    destruct fm; apply one_less_one.
  - unfold strategy_ret, compounded.
    erewrite bind_ok by
      (apply getitem_ok; unfold annotate; destruct fm; solve_column).
    unfold mret, M_ret. do 2 f_equal.
    destruct fm; apply one_less_one.
Qed.

Lemma empty_frame_annotated_witness :
  ∃ r h', compute_strategy pd.pad 0 5 10 {[0 := frame_of [] []]} = Ok (r, h') ∧
          buy_and_hold r h' = Ok (of_Z 0, h').
Proof.
  destruct (empty_frame_annotated pd.pad {[0 := frame_of [] []]} 0
              (frame_of [] []) [] 5 10)
    as (r & h' & out & Hrun & _ & _ & _ & Hbh & _).
  - reflexivity.
  - repeat split. constructor.
  - reflexivity.
  - exists r, h'. split; [exact Hrun|exact Hbh].
Defined.

(** ** Running the engine on its own result *)

Lemma annotate_well_formed fm d close sw lw :
  well_formed d close → well_formed (annotate fm d close sw lw) close.
Proof.
  intros (Hclose & Hlen & Hnd). repeat split; try done.
  rewrite columns_annotate_other; [done|].
  unfold derived. intros Hin.
  repeat (apply elem_of_cons in Hin as [[=]|Hin]).
  by apply elem_of_nil in Hin.
Qed.

Lemma annotate_annotate fm d close sw lw :
  annotate fm (annotate fm d close sw lw) close sw lw
  = annotate fm d close sw lw.
Proof.
  set (out := annotate fm d close sw lw).
  unfold annotate at 1.
  repeat (rewrite set_column_id; [|unfold out, annotate; solve_column]).
  done.
Qed.

(** X4. The engine run again on the frame it returned, with the same
    windows, returns a frame equal to it: the derived columns are
    recomputed from [close] alone and overwrite themselves. *)
Theorem reannotation_idempotent fm h l d close sw lw :
  h !! l = Some d → well_formed d close →
  ∃ r h' out, compute_strategy fm l sw lw h = Ok (r, h') ∧
    h' !! r = Some out ∧
    ∃ r2 h2, compute_strategy fm r sw lw h' = Ok (r2, h2) ∧
      r2 ≠ r ∧ h2 !! r2 = Some out ∧ h2 !! r = Some out.
Proof.
  intros Hl Hwf. pose proof Hwf as (Hclose & Hlen & Hnd).
  set (out := annotate fm d close sw lw).
  set (r := fresh (dom h)).
  set (h' := <[r := out]> h).
  pose proof (annotate_well_formed fm d close sw lw Hwf) as (Hc2 & Hl2 & Hn2).
  assert (h' !! r = Some out) as Hr by (by unfold h'; rewrite lookup_insert_eq).
  pose proof (is_fresh (dom h')) as Hfresh.
  apply not_elem_of_dom in Hfresh.
  assert (fresh (dom h') ≠ r) as Hne by (intros E; congruence).
  exists r, h', out.
  split; [by apply compute_strategy_ok|]. split; [done|].
  exists (fresh (dom h')), (<[fresh (dom h') := out]> h').
  split.
  { rewrite (compute_strategy_ok fm r out h' close sw lw Hr Hc2 Hl2 Hn2).
    unfold out. by rewrite annotate_annotate. }
  split; [done|]. split; [by rewrite lookup_insert_eq|].
  by rewrite lookup_insert_ne.
Qed.

Lemma reannotation_idempotent_witness :
  ∃ r h' out,
    compute_strategy pd.pad 0 2 3 {[0 := crossover_frame]} = Ok (r, h') ∧
    h' !! r = Some out ∧
    ∃ r2 h2, compute_strategy pd.pad r 2 3 h' = Ok (r2, h2) ∧
             h2 !! r2 = Some out.
Proof.
  destruct (reannotation_idempotent pd.pad {[0 := crossover_frame]} 0
              crossover_frame (of_Z <$> crossover_closes) 2 3)
    as (r & h' & out & Hrun & Hout & r2 & h2 & Hrun2 & _ & Hout2 & _).
  - reflexivity.
  - exact crossover_frame_well_formed.
  - exists r, h', out. split; [exact Hrun|]. split; [exact Hout|].
    exists r2, h2. split; [exact Hrun2|exact Hout2].
Defined.

(** ** No look-ahead *)

Lemma signal_column_take sw lw xs k :
  take k (signal_column sw lw xs) = signal_column sw lw (take k xs).
Proof.
  unfold signal_column. by rewrite signals_take, !rolling_mean_take.
Qed.

(** A column that commutes with [take] has, at row [i], a value that the
    closes after row [i] do not enter. *)
Lemma prefix_determines (f : list float → list float) xs ys i :
  (∀ k zs, take k (f zs) = f (take k zs)) →
  take (S i) xs = take (S i) ys → f xs !! i = f ys !! i.
Proof.
  intros Hf Heq.
  rewrite <-(lookup_take_lt (f xs) (S i) i) by lia.
  rewrite <-(lookup_take_lt (f ys) (S i) i) by lia.
  by rewrite !Hf, Heq.
Qed.

(** X5. No derived column looks ahead: two series whose closes agree up
    to and including date [i] get the same moving averages, signal,
    position, change and strategy return at date [i], whatever follows. *)
Theorem no_look_ahead fm h l d close sw lw h2 l2 d2 close2 i :
  h !! l = Some d → well_formed d close →
  h2 !! l2 = Some d2 → well_formed d2 close2 →
  take (S i) close2 = take (S i) close →
  ∃ out out2, returns fm h l sw lw out ∧ returns fm h2 l2 sw lw out2 ∧
    ∀ name, name ∈ derived → cell_at out2 name i = cell_at out name i.
Proof.
  intros Hl Hwf Hl2 Hwf2 Heq.
  destruct (compute_strategy_columns fm h l d close sw lw Hl Hwf)
    as (out & Hret & _ & _ & Hss & Hsl & Hsg & Hpos & Hpct & Hsr).
  destruct (compute_strategy_columns fm h2 l2 d2 close2 sw lw Hl2 Hwf2)
    as (out2 & Hret2 & _ & _ & Hss2 & Hsl2 & Hsg2 & Hpos2 & Hpct2 & Hsr2).
  exists out, out2. split; [done|]. split; [done|].
  intros name Hname. unfold derived in Hname.
  repeat (apply elem_of_cons in Hname as [->|Hname]);
    [..|by apply elem_of_nil in Hname].
  - rewrite (cell_at_column out _ _ _ Hss), (cell_at_column out2 _ _ _ Hss2).
    apply (prefix_determines (pd.rolling_mean sw)); [|done].
    intros. apply rolling_mean_take.
  - rewrite (cell_at_column out _ _ _ Hsl), (cell_at_column out2 _ _ _ Hsl2).
    apply (prefix_determines (pd.rolling_mean lw)); [|done].
    intros. apply rolling_mean_take.
  - rewrite (cell_at_column out _ _ _ Hsg), (cell_at_column out2 _ _ _ Hsg2).
    apply (prefix_determines (signal_column sw lw)); [|done].
    intros. apply signal_column_take.
  - rewrite (cell_at_column out _ _ _ Hpos), (cell_at_column out2 _ _ _ Hpos2).
    apply (prefix_determines (position_column sw lw)); [|done].
    intros. apply position_column_take.
  - rewrite (cell_at_column out _ _ _ Hpct), (cell_at_column out2 _ _ _ Hpct2).
    apply (prefix_determines (pct_column fm)); [|done].
    intros. apply pct_column_take.
  - rewrite (cell_at_column out _ _ _ Hsr), (cell_at_column out2 _ _ _ Hsr2).
    apply (prefix_determines (return_column fm sw lw)); [|done].
    intros. apply return_column_take.
Qed.

Lemma no_look_ahead_witness :
  ∃ out out2,
    returns pd.pad {[0 := crossover_frame]} 0 2 3 out ∧
    returns pd.pad {[0 := frame_of crossover_dates crossover_closes_then]}
      0 2 3 out2 ∧
    cell_at out2 "signal" 8 = cell_at out "signal" 8 ∧
    cell_at out2 "position" 8 = cell_at out "position" 8.
Proof.
  destruct (no_look_ahead pd.pad {[0 := crossover_frame]} 0
              crossover_frame (of_Z <$> crossover_closes) 2 3
              {[0 := frame_of crossover_dates crossover_closes_then]} 0
              (frame_of crossover_dates crossover_closes_then)
              (of_Z <$> crossover_closes_then) 8)
    as (out & out2 & Hret & Hret2 & Hsame).
  - reflexivity.
  - exact crossover_frame_well_formed.
  - reflexivity.
  - apply frame_of_well_formed; [reflexivity|]. by_evaluation.
  - reflexivity.
  - exists out, out2. split; [exact Hret|]. split; [exact Hret2|].
    split; apply Hsame; unfold derived; set_solver.
Defined.

(** ** When the strategy holds a position *)

Lemma signal_code_inj s t : signal_code s = signal_code t → s = t.
Proof. by destruct s, t. Qed.

Lemma foldl_no_buy l :
  Forall (λ s, s ≠ Buy) l → foldl next_position Flat l = Flat.
Proof.
  induction l as [|s l IH] using rev_ind; [done|].
  intros [Hl Hs]%Forall_app. rewrite foldl_snoc, (IH Hl).
  rewrite Forall_singleton in Hs. by destruct s.
Qed.

(** Without a BUY up to date [i] the position at [i] is FLAT. *)
Lemma position_flat_no_buy sw lw close i :
  i < length close →
  (∀ j, j ≤ i → signal_column sw lw close !! j ≠ Some BUY) →
  position_column sw lw close !! i = Some FLAT.
Proof.
  intros Hi Hno. unfold position_column.
  destruct (signal_column_codes sw lw close) as [sigs Hsigs].
  assert (length sigs = length close) as Hlen.
  { by rewrite <-(length_signal_column sw lw close), Hsigs, length_fmap. }
  rewrite Hsigs in *. rewrite (lookup_carry_forward Flat) by lia.
  rewrite foldl_no_buy; [done|].
  apply Forall_lookup. intros j s Hs ->.
  apply lookup_take_Some in Hs as [Hs Hj].
  apply (Hno j); [lia|]. by rewrite list_lookup_fmap, Hs.
Qed.

Lemma flt_irrefl x : flt x x = false.
Proof.
  destruct (flt x x) eqn:E; [|done].
  destruct (flt_asym x x); by rewrite E.
Qed.

(** Equal averages today give no signal. *)
Lemma signal_at_equal ss i : signal_at ss ss i = NONE.
Proof.
  unfold signal_at. destruct i as [|j]; [done|].
  repeat case_match; simplify_eq/=; try done;
    unfold fgt in *; rewrite flt_irrefl in *; done.
Qed.

(** A signal needs both averages the day before: there is none on the
    first [w] dates of an average over [w]. *)
Lemma signal_at_warm_up sw lw close i :
  i < sw ∨ i < lw →
  signal_at (pd.rolling_mean sw close) (pd.rolling_mean lw close) i = NONE.
Proof.
  intros Hi. destruct i as [|j]; [done|].
  destruct (decide (S j < length close)) as [Hlen|Hlen].
  - apply signal_at_undefined_before.
    rewrite !lookup_rolling_mean by lia.
    destruct Hi; [left|right]; f_equal; by apply rolling_mean_at_short.
  - unfold signal_at.
    rewrite (lookup_ge_None_2 (pd.rolling_mean sw close) (S j)); [done|].
    rewrite length_rolling_mean. lia.
Qed.

(** X6. Warm-up: on the first [max short_window long_window] dates the
    signal is NONE and the position FLAT, whatever the closes are. *)
Theorem warm_up_flat fm h l d close sw lw :
  h !! l = Some d → well_formed d close →
  ∃ out, returns fm h l sw lw out ∧
    ∀ i, i < length close → i < sw `max` lw →
      cell_at out "signal" i = Some NONE ∧
      cell_at out "position" i = Some FLAT.
Proof.
  intros Hl Hwf.
  destruct (compute_strategy_columns fm h l d close sw lw Hl Hwf)
    as (out & Hret & _ & _ & _ & _ & Hsg & Hpos & _).
  exists out. split; [done|]. intros i Hi Hwarm.
  rewrite (cell_at_column out _ _ _ Hsg), (cell_at_column out _ _ _ Hpos).
  assert (∀ j, j ≤ i → signal_column sw lw close !! j = Some NONE) as Hnone.
  { intros j Hj. rewrite lookup_signal_column by lia. f_equal.
    apply signal_at_warm_up. lia. }
  split; [by apply Hnone|].
  apply position_flat_no_buy; [done|].
  intros j Hj. rewrite Hnone by done. intros [=].
Qed.

Lemma warm_up_flat_witness :
  ∃ out, returns pd.pad {[0 := crossover_frame]} 0 2 3 out ∧
         cell_at out "signal" 2 = Some NONE ∧
         cell_at out "position" 2 = Some FLAT.
Proof.
  destruct (warm_up_flat pd.pad {[0 := crossover_frame]} 0
              crossover_frame (of_Z <$> crossover_closes) 2 3)
    as (out & Hret & Hwarm).
  - reflexivity.
  - exact crossover_frame_well_formed.
  - exists out. split; [exact Hret|]. apply Hwarm; simpl; lia.
Defined.

(** X7. Equal windows never trade: when [short_window = long_window]
    the two averages coincide, so every signal is NONE and every position
    FLAT.  ([app] rejects such windows before it calls the engine.) *)
Theorem equal_windows_never_trade fm h l d close w :
  h !! l = Some d → well_formed d close →
  ∃ out, returns fm h l w w out ∧
    ∀ i, i < length close →
      cell_at out "signal" i = Some NONE ∧
      cell_at out "position" i = Some FLAT.
Proof.
  intros Hl Hwf.
  destruct (compute_strategy_columns fm h l d close w w Hl Hwf)
    as (out & Hret & _ & _ & _ & _ & Hsg & Hpos & _).
  exists out. split; [done|]. intros i Hi.
  rewrite (cell_at_column out _ _ _ Hsg), (cell_at_column out _ _ _ Hpos).
  assert (∀ j, j ≤ i → signal_column w w close !! j = Some NONE) as Hnone.
  { intros j Hj. rewrite lookup_signal_column by lia. f_equal.
    apply signal_at_equal. }
  split; [by apply Hnone|].
  apply position_flat_no_buy; [done|].
  intros j Hj. rewrite Hnone by done. intros [=].
Qed.

Lemma equal_windows_never_trade_witness :
  ∃ out, returns pd.pad {[0 := crossover_frame]} 0 2 2 out ∧
         cell_at out "signal" 5 = Some NONE ∧
         cell_at out "position" 11 = Some FLAT.
Proof.
  destruct (equal_windows_never_trade pd.pad {[0 := crossover_frame]} 0
              crossover_frame (of_Z <$> crossover_closes) 2)
    as (out & Hret & Hnone).
  - reflexivity.
  - exact crossover_frame_well_formed.
  - exists out. split; [exact Hret|]. split.
    + apply (Hnone 5). simpl. lia.
    + apply (Hnone 11). simpl. lia.
Defined.

Lemma fmul_long c : is_finite c → fmul LONG c = c.
Proof.
  destruct c as [| | |q]; try done. intros _. simpl. f_equal.
  rewrite Qc_of_Z_1. ring.
Qed.

(** X9. Long only, no leverage: every position is LONG or FLAT, and at
    a date whose change is finite the strategy's return is that change
    when the position of the day before is LONG and 0 when it is FLAT. *)
Theorem long_only fm h l d close sw lw :
  h !! l = Some d → well_formed d close →
  ∃ out, returns fm h l sw lw out ∧
    (∀ i, i < length close →
       cell_at out "position" i = Some LONG ∨
       cell_at out "position" i = Some FLAT) ∧
    (∀ i c, cell_at out "pct_change" (S i) = Some c → is_finite c →
       (cell_at out "position" i = Some LONG →
        cell_at out "strategy_return" (S i) = Some c) ∧
       (cell_at out "position" i = Some FLAT →
        cell_at out "strategy_return" (S i) = Some (of_Z 0))).
Proof.
  intros Hl Hwf.
  destruct (compute_strategy_columns fm h l d close sw lw Hl Hwf)
    as (out & Hret & _ & _ & _ & _ & _ & Hpos & Hpct & Hsr).
  exists out. split; [done|]. split.
  - intros i Hi. rewrite (cell_at_column out _ _ _ Hpos).
    destruct (lookup_lt_is_Some_2 (position_column sw lw close) i) as [p Hp].
    { by rewrite length_position_column. }
    rewrite Hp.
    destruct (position_column_values _ _ _ _ _ Hp) as [-> | ->]; auto.
  - intros i c.
    rewrite (cell_at_column out _ _ _ Hpos), (cell_at_column out _ _ _ Hpct),
      (cell_at_column out _ _ _ Hsr).
    intros Hc Hfin. split; intros Hp.
    + rewrite (lookup_return_column_S fm sw lw close i LONG c Hp Hc).
      f_equal. by apply fmul_long.
    + rewrite (lookup_return_column_S fm sw lw close i FLAT c Hp Hc).
      f_equal. by apply fmul_flat.
Qed.

Lemma long_only_witness :
  ∃ out, returns pd.pad {[0 := crossover_frame]} 0 2 3 out ∧
    (cell_at out "position" 6 = Some LONG ∨
     cell_at out "position" 6 = Some FLAT).
Proof.
  destruct (long_only pd.pad {[0 := crossover_frame]} 0
              crossover_frame (of_Z <$> crossover_closes) 2 3)
    as (out & Hret & Hpos & _).
  - reflexivity.
  - exact crossover_frame_well_formed.
  - exists out. split; [exact Hret|]. apply Hpos. simpl. lia.
Defined.

Lemma position_code_long p : position_code p = LONG ↔ p = Long.
Proof. by destruct p. Qed.

(** The fold ends LONG exactly when a BUY is followed by no SELL. *)
Lemma foldl_long_iff l :
  foldl next_position Flat l = Long ↔
  ∃ j, l !! j = Some Buy ∧ ∀ k, j < k → l !! k ≠ Some Sell.
Proof.
  induction l as [|s l IH] using rev_ind.
  { split; [done|]. by intros (j & Hj & _). }
  rewrite foldl_snoc. destruct s; simpl.
  - split; [intros _|done]. exists (length l). split.
    + by rewrite lookup_app_r, Nat.sub_diag by lia.
    + intros k Hk. rewrite lookup_ge_None_2; [done|].
      rewrite length_app. simpl. lia.
  - split; [done|]. intros (j & Hj & Hno).
    destruct (decide (j < length l)) as [Hlt|Hge].
    + destruct (Hno (length l) Hlt).
      by rewrite lookup_app_r, Nat.sub_diag by lia.
    + apply lookup_lt_Some in Hj as Hlen.
      rewrite length_app in Hlen. simpl in Hlen.
      replace j with (length l) in Hj by lia.
      by rewrite lookup_app_r, Nat.sub_diag in Hj by lia.
  - rewrite IH. split; intros (j & Hj & Hno).
    + exists j. split; [by apply lookup_app_l_Some|].
      intros k Hk. destruct (decide (k < length l)) as [Hlt|Hge].
      * rewrite lookup_app_l by done. by apply Hno.
      * destruct (decide (k = length l)) as [->|Hne].
        -- by rewrite lookup_app_r, Nat.sub_diag by lia.
        -- rewrite lookup_ge_None_2; [done|].
           rewrite length_app. simpl. lia.
    + destruct (decide (j < length l)) as [Hlt|Hge].
      * exists j. rewrite lookup_app_l in Hj by done. split; [done|].
        intros k Hk Hsell. apply (Hno k Hk).
        by apply lookup_app_l_Some.
      * apply lookup_lt_Some in Hj as Hlen.
        rewrite length_app in Hlen. simpl in Hlen.
        replace j with (length l) in Hj by lia.
        by rewrite lookup_app_r, Nat.sub_diag in Hj by lia.
Qed.

(** X8. The position at a date is LONG exactly when some date up to it
    carries a BUY that no SELL has followed since: the position is that
    of the most recent BUY or SELL, and FLAT before the first BUY. *)
Theorem position_follows_last_signal fm h l d close sw lw :
  h !! l = Some d → well_formed d close →
  ∃ out, returns fm h l sw lw out ∧
    ∀ i, i < length close →
      (cell_at out "position" i = Some LONG ↔
       ∃ j, j ≤ i ∧ cell_at out "signal" j = Some BUY ∧
            ∀ k, j < k → k ≤ i → cell_at out "signal" k ≠ Some SELL).
Proof.
  intros Hl Hwf.
  destruct (compute_strategy_columns fm h l d close sw lw Hl Hwf)
    as (out & Hret & _ & _ & _ & _ & Hsg & Hpos & _).
  exists out. split; [done|]. intros i Hi.
  destruct (signal_column_codes sw lw close) as [sigs Hsigs].
  assert (length sigs = length close) as Hlen.
  { by rewrite <-(length_signal_column sw lw close), Hsigs, length_fmap. }
  assert (∀ j s, cell_at out "signal" j = Some (signal_code s) ↔
                 sigs !! j = Some s) as Esg.
  { intros j s. rewrite (cell_at_column out _ _ _ Hsg), Hsigs.
    rewrite list_lookup_fmap. destruct (sigs !! j) as [t|]; simpl; [|done].
    split; [intros [= E]; f_equal; by apply signal_code_inj|by intros [= ->]]. }
  rewrite (cell_at_column out _ _ _ Hpos). unfold position_column.
  rewrite Hsigs, (lookup_carry_forward Flat) by lia.
  split.
  - intros [= Hlong]. apply position_code_long, foldl_long_iff in Hlong.
    destruct Hlong as (j & Hj & Hno).
    apply lookup_take_Some in Hj as [Hj Hji].
    exists j. split; [lia|]. split; [by apply (Esg j Buy)|].
    intros k Hjk Hki Hsell. apply (Hno k Hjk).
    apply (Esg k Sell) in Hsell. rewrite lookup_take_lt by lia. done.
  - intros (j & Hji & Hbuy & Hno). f_equal.
    apply position_code_long, foldl_long_iff.
    exists j. split.
    + rewrite lookup_take_lt by lia. by apply (Esg j Buy).
    + intros k Hjk Hsell. apply lookup_take_Some in Hsell as [Hsell Hki].
      apply (Hno k Hjk); [lia|]. by apply (Esg k Sell).
Qed.

Lemma position_follows_last_signal_witness :
  ∃ out, returns pd.pad {[0 := crossover_frame]} 0 2 3 out ∧
    (cell_at out "position" 7 = Some LONG ↔
     ∃ j, j ≤ 7 ∧ cell_at out "signal" j = Some BUY ∧
          ∀ k, j < k → k ≤ 7 → cell_at out "signal" k ≠ Some SELL).
Proof.
  destruct (position_follows_last_signal pd.pad {[0 := crossover_frame]} 0
              crossover_frame (of_Z <$> crossover_closes) 2 3)
    as (out & Hret & Hpos).
  - reflexivity.
  - exact crossover_frame_well_formed.
  - exists out. split; [exact Hret|]. apply Hpos. simpl. lia.
Defined.

(** ** The compounded strategy return *)




(** ** A date that occurs twice *)

Lemma rows_with_length lab idx col :
  length col = length idx →
  length (rows_with lab idx col) = length (filter (λ l, l = lab) idx).
Proof.
  unfold rows_with. revert col.
  induction idx as [|l idx IH]; intros [|x col] Hlen; simplify_eq/=; [done|].
  destruct (decide (l = lab)) as [->|Hne].
  - rewrite !filter_cons_True by done. simpl. f_equal. by apply IH.
  - rewrite !filter_cons_False by done. by apply IH.
Qed.

Lemma filter_label_present (lab : Z) idx :
  lab ∈ idx → 1 ≤ length (filter (λ l, l = lab) idx).
Proof.
  intros Hin.
  assert (lab ∈ filter (λ l, l = lab) idx) as Hf
    by (by apply list_elem_of_filter).
  destruct (filter _ idx); [by apply elem_of_nil in Hf|simpl; lia].
Qed.

Lemma filter_label_twice (lab : Z) idx i j :
  i ≠ j → idx !! i = Some lab → idx !! j = Some lab →
  2 ≤ length (filter (λ l, l = lab) idx).
Proof.
  revert i j. induction idx as [|x idx IH]; intros i j Hne Hi Hj; [done|].
  destruct i as [|i], j as [|j]; simplify_eq/=.
  - rewrite filter_cons_True by done. simpl.
    pose proof (filter_label_present lab idx
                  (list_elem_of_lookup_2 _ _ _ Hj)). lia.
  - rewrite filter_cons_True by done. simpl.
    pose proof (filter_label_present lab idx
                  (list_elem_of_lookup_2 _ _ _ Hi)). lia.
  - assert (2 ≤ length (filter (λ l, l = lab) idx)) as Hrec
      by (apply (IH i j); [congruence|done|done]).
    destruct (decide (x = lab)).
    + rewrite filter_cons_True by done. simpl. lia.
    + by rewrite filter_cons_False by done.
Qed.

Section repeated_label.
Context (l : nat) (d : DataFrame) (h : gmap nat DataFrame).
Context (name : string) (col : list float) (lab : Z).
Hypothesis col_present : columns d !! name = Some col.
Hypothesis col_length : length col = length (index d).

(** [df.at] on a label of the index always finds a cell or a Series. *)
Lemma at_get_total :
  lab ∈ index d →
  ∃ c, at_get l lab name (<[l := d]> h) = Ok (c, <[l := d]> h).
Proof.
  intros Hin. unfold at_get.
  rewrite (bind_ok _ _ _ _ _ (deref_ok _ _ _)), col_present.
  pose proof (filter_label_present lab (index d) Hin) as Hlen.
  rewrite <-(rows_with_length lab (index d) col col_length) in Hlen.
  destruct (rows_with lab (index d) col) as [|x [|y rest]];
    [simpl in Hlen; lia|by eexists|by eexists].
Qed.

(** On a label that two rows carry it yields a Series. *)
Lemma at_get_rows i j :
  i ≠ j → index d !! i = Some lab → index d !! j = Some lab →
  ∃ xs, at_get l lab name (<[l := d]> h) = Ok (Rows xs, <[l := d]> h).
Proof.
  intros Hne Hi Hj. unfold at_get.
  rewrite (bind_ok _ _ _ _ _ (deref_ok _ _ _)), col_present.
  pose proof (filter_label_twice lab (index d) i j Hne Hi Hj) as Hlen.
  rewrite <-(rows_with_length lab (index d) col col_length) in Hlen.
  destruct (rows_with lab (index d) col) as [|x [|y rest]];
    [simpl in Hlen; lia..|by eexists].
Qed.

End repeated_label.

Section loop_on_any_index.
Context (l : nat) (h : gmap nat DataFrame).
Context (idx : list Z) (ss sl : list float).
Hypothesis ss_length : length ss = length idx.
Hypothesis sl_length : length sl = length idx.

Lemma raises_or_returns_truth p s : raises_or_returns (truth p) s.
Proof. destruct p; [right; by eexists|by left]. Qed.

Lemma raises_or_returns_bind {A B} (m : M A) (g : A → M B) s :
  raises_or_returns m s →
  (∀ a, m s = Ok (a, s) → raises_or_returns (g a) s) →
  raises_or_returns (m ≫= g) s.
Proof.
  intros [Herr|[a Ha]] Hg; [left; by apply bind_err|].
  unfold raises_or_returns. rewrite (bind_ok _ _ _ _ _ Ha). by apply Hg.
Qed.

Lemma raises_or_returns_and_then (a b : M bool) s :
  raises_or_returns a s → raises_or_returns b s →
  raises_or_returns (and_then a b) s.
Proof.
  intros Ha Hb. unfold and_then. apply raises_or_returns_bind; [done|].
  intros [] _; [done|right; by eexists].
Qed.

Lemma loop_outcome_bind {A} (m : M A) (f : A → M ()) d :
  raises_or_returns m (<[l := d]> h) →
  (∀ a, m (<[l := d]> h) = Ok (a, <[l := d]> h) →
        loop_outcome l h idx ss sl (f a) d) →
  loop_outcome l h idx ss sl (m ≫= f) d.
Proof.
  intros [Herr|[a Ha]] Hf; [left; by apply bind_err|].
  unfold loop_outcome. rewrite (bind_ok _ _ _ _ _ Ha). by apply Hf.
Qed.

(** An iteration at a row whose date another row carries raises. *)
Lemma signal_body_repeated d i j lab :
  loop_frame idx ss sl d →
  i ≠ j → idx !! i = Some lab → idx !! j = Some lab →
  signal_body l i (<[l := d]> h) = Err ValueError.
Proof.
  intros (Hidx & Hss & Hsl & _) Hne Hi Hj.
  rewrite <-Hidx in Hi, Hj.
  destruct (at_get_rows l d h "sma_short" ss lab Hss
              ltac:(by rewrite Hidx) i j Hne Hi Hj) as [xs Hrows].
  unfold signal_body.
  rewrite (bind_ok _ _ _ _ _ (index_get_ok l d h _ _ Hi)).
  apply bind_err. unfold and_then. apply bind_err.
  by rewrite (bind_ok _ _ _ _ _ Hrows).
Qed.

(** Any iteration raises [ValueError] or leaves a frame of the same
    shape. *)
Lemma signal_body_cases d i :
  loop_frame idx ss sl d → i < length idx →
  loop_outcome l h idx ss sl (signal_body l i) d.
Proof.
  intros Hd Hi. pose proof Hd as (Hidx & Hss & Hsl & sg & Hsg & Hsglen).
  destruct (lookup_lt_is_Some_2 idx i Hi) as [here Hhere].
  destruct (lookup_lt_is_Some_2 idx (i - 1)) as [before Hbefore]; [lia|].
  rewrite <-Hidx in Hhere, Hbefore.
  pose proof (list_elem_of_lookup_2 _ _ _ Hhere) as Hin.
  pose proof (list_elem_of_lookup_2 _ _ _ Hbefore) as Hinb.
  assert (length ss = length (index d)) as Hssl by congruence.
  assert (length sl = length (index d)) as Hsll by congruence.
  assert (∀ lab name col, columns d !! name = Some col →
            length col = length (index d) → lab ∈ index d →
            raises_or_returns (at_get l lab name) (<[l := d]> h)) as Hat.
  { intros lab name col Hcol Hlen Hlab. right.
    by apply (at_get_total l d h name col lab). }
  assert (∀ lab name col, columns d !! name = Some col →
            length col = length (index d) → lab ∈ index d →
            raises_or_returns (c ← at_get l lab name; truth (notnull c))
              (<[l := d]> h)) as Hnotnull.
  { intros lab name col Hcol Hlen Hlab.
    apply raises_or_returns_bind; [by eapply Hat|].
    intros. apply raises_or_returns_truth. }
  assert (∀ v, loop_outcome l h idx ss sl (at_set l here "signal" v) d)
    as Hset.
  { intros v. right. eexists. split; [|unfold at_set;
      rewrite (bind_ok _ _ _ _ _ (deref_ok _ _ _)), Hsg; unfold store;
      by rewrite insert_insert_eq].
    repeat split; simpl; try done.
    - by rewrite lookup_insert_ne.
    - by rewrite lookup_insert_ne.
    - eexists. split; [by rewrite lookup_insert_eq|].
      unfold set_rows. rewrite length_zip_with, Hidx. lia. }
  assert (loop_outcome l h idx ss sl (mret ()) d) as Hskip
    by (right; by exists d).
  unfold signal_body.
  apply loop_outcome_bind.
  { right. eexists. by apply index_get_ok. }
  intros ? E. rewrite (index_get_ok l d h _ _ Hhere) in E.
  injection E as <-.
  apply loop_outcome_bind.
  { apply raises_or_returns_and_then; by eapply Hnotnull. }
  intros [] _; [|done].
  apply loop_outcome_bind.
  { right. eexists. by apply index_get_ok. }
  intros ? E. rewrite (index_get_ok l d h _ _ Hbefore) in E.
  injection E as <-.
  apply loop_outcome_bind; [by eapply Hat|]. intros prev_short _.
  apply loop_outcome_bind; [by eapply Hat|]. intros prev_long _.
  apply loop_outcome_bind; [by eapply Hat|]. intros curr_short _.
  apply loop_outcome_bind; [by eapply Hat|]. intros curr_long _.
  apply loop_outcome_bind.
  { apply raises_or_returns_and_then; apply raises_or_returns_truth. }
  intros [] _; [apply Hset|].
  apply loop_outcome_bind.
  { apply raises_or_returns_and_then; apply raises_or_returns_truth. }
  intros [] _; [apply Hset|done].
Qed.

(** Iterations [a .. a + k - 1]: they raise [ValueError], or no row
    among them carries a repeated date and the frame keeps its shape. *)
Lemma signal_loop_cases k a d :
  loop_frame idx ss sl d → a + k ≤ length idx →
  for_each (signal_body l) (seq a k) (<[l := d]> h) = Err ValueError ∨
  ((∀ i j lab, a ≤ i → i < a + k → i ≠ j →
      idx !! i = Some lab → idx !! j = Some lab → False) ∧
   ∃ d', loop_frame idx ss sl d' ∧
         for_each (signal_body l) (seq a k) (<[l := d]> h)
         = Ok ((), <[l := d']> h)).
Proof.
  revert a d. induction k as [|k IH]; intros a d Hd Hk.
  { right. split; [intros; lia|]. by exists d. }
  simpl. destruct (signal_body_cases d a Hd) as [Herr|(d' & Hd' & Hok)];
    [lia|left; by apply bind_err|].
  rewrite (bind_ok _ _ _ _ _ Hok).
  destruct (IH (S a) d' Hd') as [Herr|(Hnone & d'' & Hd'' & Hrest)];
    [lia|by left|].
  right. split; [|by exists d''].
  intros i j lab Hai Hik Hne Hi Hj.
  destruct (decide (i = a)) as [->|Hia].
  - rewrite (signal_body_repeated d a j lab Hd Hne Hi Hj) in Hok. done.
  - apply (Hnone i j lab); try done; lia.
Qed.

End loop_on_any_index.

(** X1. A frame in which one date labels two rows: at the first such row
    after the first, [df.at] yields a Series and the test of the signal
    loop raises [ValueError]; no frame is returned. *)
Theorem repeated_date_raises_error fm h l d close sw lw i j lab :
  h !! l = Some d →
  columns d !! "close" = Some close → length close = length (index d) →
  i ≠ j → index d !! i = Some lab → index d !! j = Some lab →
  compute_strategy fm l sw lw h = Err ValueError.
Proof.
  intros Hl Hclose Hlen Hne Hi Hj. unfold compute_strategy.
  rewrite (bind_ok _ _ _ _ _ (copy_ok l d h Hl)).
  set (r := fresh (dom h)).
  set (ss := pd.rolling_mean sw close).
  set (sl := pd.rolling_mean lw close).
  assert (length ss = length (index d)) as Hss
    by (unfold ss; by rewrite length_rolling_mean).
  assert (length sl = length (index d)) as Hsl
    by (unfold sl; by rewrite length_rolling_mean).
  erewrite bind_ok by (by apply getitem_ok).
  erewrite bind_ok by apply setitem_ok.
  erewrite bind_ok by (apply getitem_ok; solve_column).
  erewrite bind_ok by apply setitem_ok.
  erewrite bind_ok by apply setitem_scalar_ok.
  erewrite bind_ok by apply len_ok.
  apply bind_err. simpl. unfold range.
  set (d3 := set_column _ "signal" _).
  assert (loop_frame (index d) ss sl d3) as Hd3.
  { unfold d3. repeat split; try solve_column.
    eexists. split; [solve_column|]. by rewrite length_replicate. }
  apply lookup_lt_Some in Hi as Hilen. apply lookup_lt_Some in Hj as Hjlen.
  destruct (signal_loop_cases r h (index d) ss sl Hss Hsl
              (length (index d) - 1) 1 d3 Hd3)
    as [Herr|(Hnone & _)]; [lia|done|].
  destruct (decide (i = 0)) as [->|Hi0].
  - destruct (Hnone j 0 lab); try done; lia.
  - destruct (Hnone i j lab); try done; lia.
Qed.

Lemma repeated_date_raises_error_witness :
  compute_strategy pd.pad 0 2 3 {[0 := frame_of [1; 2; 2]%Z [10; 11; 12]%Z]}
  = Err ValueError.
Proof.
  apply (repeated_date_raises_error pd.pad _ 0
           (frame_of [1; 2; 2]%Z [10; 11; 12]%Z)
           (of_Z <$> [10; 11; 12]%Z) 2 3 1 2 2%Z).
  - reflexivity.
  - reflexivity.
  - reflexivity.
  - lia.
  - reflexivity.
  - reflexivity.
Defined.

(** * The page [app] draws *)

(** ** Steps of a page computation *)

Lemma app_bind_ok {A B} (m : ui.App A) (f : A → ui.App B) page h a page' h' :
  m page h = Ok ((a, page'), h') → (m ≫= f) page h = f a page' h'.
Proof.
  intros H. unfold mbind at 1, ui.App_bind.
  by rewrite (bind_ok _ _ _ _ _ H).
Qed.

Lemma app_bind_err {A B} (m : ui.App A) (f : A → ui.App B) page h e :
  m page h = Err e → (m ≫= f) page h = Err e.
Proof. intros H. unfold mbind at 1, ui.App_bind. by apply bind_err. Qed.

Lemma emit_ok e page h : ui.emit e page h = Ok (((), page ++ [e]), h).
Proof. done. Qed.

Lemma run_ok {A} (m : M A) page h a h' :
  m h = Ok (a, h') → ui.run m page h = Ok ((a, page), h').
Proof. intros H. unfold ui.run. by rewrite (bind_ok _ _ _ _ _ H). Qed.

Lemma run_err {A} (m : M A) page h e :
  m h = Err e → ui.run m page h = Err e.
Proof. intros H. unfold ui.run. by apply bind_err. Qed.

Lemma getitem_lookup l d h name col :
  h !! l = Some d → columns d !! name = Some col →
  getitem l name h = Ok (col, h).
Proof.
  intros Hl Hcol. rewrite <-(insert_id h l d Hl). by apply getitem_ok.
Qed.

Lemma empty_lookup l d h :
  h !! l = Some d →
  ui.empty l h
  = Ok (bool_decide (length (index d) = 0 ∨ columns d = ∅), h).
Proof. intros Hl. unfold ui.empty, mbind, M_bind, deref. by rewrite Hl. Qed.

Lemma index_of_lookup l d h :
  h !! l = Some d → ui.index_of l h = Ok (index d, h).
Proof. intros Hl. unfold ui.index_of, mbind, M_bind, deref. by rewrite Hl. Qed.

Lemma getitems_lookup l d h names :
  h !! l = Some d →
  (∀ name, name ∈ names → is_Some (columns d !! name)) →
  ui.getitems l names h
  = Ok ((λ name, (name, default [] (columns d !! name))) <$> names, h).
Proof.
  intros Hl. induction names as [|name names IH]; intros Hall; [done|].
  destruct (Hall name) as [col Hcol]; [by left|].
  simpl. rewrite (bind_ok _ _ _ _ _ (getitem_lookup l d h name col Hl Hcol)).
  rewrite (bind_ok _ _ _ _ _ (IH (λ n Hn, Hall n (list_elem_of_further _ _ _ Hn)))).
  by rewrite Hcol.
Qed.

(** ** The two validations and the empty download *)

(** X11. A start date that is not before the end date: the page gets
    the title, the introduction and one error, and that is all; nothing is
    downloaded, whatever [load_data] would do, and no frame is touched. *)
Theorem app_rejects_dates fm load_data inputs page h :
  (ui.end_date inputs ≤ ui.start_date inputs)%Z →
  ui.app fm load_data inputs page h
  = Ok (((), page ++
           [ui.st_title "Backtest Moving‑Average Strategy on NSE Stocks";
            ui.st_markdown ui.intro_text;
            ui.st_error "Start date must be before end date."]), h).
Proof.
  intros Hdates. unfold ui.app.
  rewrite (app_bind_ok _ _ _ _ _ _ _ (emit_ok _ _ _)).
  rewrite (app_bind_ok _ _ _ _ _ _ _ (emit_ok _ _ _)).
  rewrite bool_decide_eq_true_2 by done.
  rewrite emit_ok. by rewrite <-!app_assoc.
Qed.

Lemma app_rejects_dates_witness :
  ui.app pd.pad (λ _ _ _, raise KeyError)
    {| ui.symbol := "RELIANCE.NS"; ui.start_date := 20; ui.end_date := 20;
       ui.short_window := 5; ui.long_window := 10 |} [] ∅
  = Ok (((), [ui.st_title "Backtest Moving‑Average Strategy on NSE Stocks";
              ui.st_markdown ui.intro_text;
              ui.st_error "Start date must be before end date."]), ∅).
Proof.
  apply (app_rejects_dates pd.pad (λ _ _ _, raise KeyError) _ [] ∅).
  simpl. lia.
Defined.

(** X12. Dates in order but a short window that is not below the long
    one: title, introduction and the window error; again nothing is
    downloaded and the engine is not called. *)
Theorem app_rejects_windows fm load_data inputs page h :
  (ui.start_date inputs < ui.end_date inputs)%Z →
  ui.long_window inputs ≤ ui.short_window inputs →
  ui.app fm load_data inputs page h
  = Ok (((), page ++
           [ui.st_title "Backtest Moving‑Average Strategy on NSE Stocks";
            ui.st_markdown ui.intro_text;
            ui.st_error "Short window must be less than long window."]), h).
Proof.
  intros Hdates Hwindows. unfold ui.app.
  rewrite (app_bind_ok _ _ _ _ _ _ _ (emit_ok _ _ _)).
  rewrite (app_bind_ok _ _ _ _ _ _ _ (emit_ok _ _ _)).
  rewrite bool_decide_eq_false_2 by lia.
  rewrite bool_decide_eq_true_2 by done.
  rewrite emit_ok. by rewrite <-!app_assoc.
Qed.

Lemma app_rejects_windows_witness :
  ui.app pd.pad (λ _ _ _, raise KeyError)
    {| ui.symbol := "RELIANCE.NS"; ui.start_date := 1; ui.end_date := 20;
       ui.short_window := 10; ui.long_window := 10 |} [] ∅
  = Ok (((), [ui.st_title "Backtest Moving‑Average Strategy on NSE Stocks";
              ui.st_markdown ui.intro_text;
              ui.st_error "Short window must be less than long window."]), ∅).
Proof.
  apply (app_rejects_windows pd.pad (λ _ _ _, raise KeyError) _ [] ∅);
    simpl; lia.
Defined.

(** X13. Valid inputs and a download without rows or without columns:
    the page ends with the no-data error; the engine is not called, so
    the heap is as the download left it. *)
Theorem app_reports_no_data fm load_data inputs page h data h1 d :
  (ui.start_date inputs < ui.end_date inputs)%Z →
  ui.short_window inputs < ui.long_window inputs →
  load_data (ui.symbol inputs) (ui.start_date inputs) (ui.end_date inputs) h
  = Ok (data, h1) →
  h1 !! data = Some d →
  index d = [] ∨ columns d = ∅ →
  ui.app fm load_data inputs page h
  = Ok (((), page ++
           [ui.st_title "Backtest Moving‑Average Strategy on NSE Stocks";
            ui.st_markdown ui.intro_text;
            ui.st_spinner "Downloading data...";
            ui.st_error "No data returned for the selected period."]), h1).
Proof.
  intros Hdates Hwindows Hload Hdata Hempty. unfold ui.app.
  rewrite (app_bind_ok _ _ _ _ _ _ _ (emit_ok _ _ _)).
  rewrite (app_bind_ok _ _ _ _ _ _ _ (emit_ok _ _ _)).
  rewrite !bool_decide_eq_false_2 by lia.
  rewrite (app_bind_ok _ _ _ _ _ _ _ (emit_ok _ _ _)).
  rewrite (app_bind_ok _ _ _ _ _ _ _ (run_ok _ _ _ _ _ Hload)).
  rewrite (app_bind_ok _ _ _ _ _ _ _
             (run_ok _ _ _ _ _ (empty_lookup data d h1 Hdata))).
  rewrite bool_decide_eq_true_2.
  - rewrite emit_ok. by rewrite <-!app_assoc.
  - destruct Hempty as [-> | ->]; auto.
Qed.

Lemma app_reports_no_data_witness :
  ∃ h1,
    ui.app pd.pad (λ _ _ _, alloc (frame_of [] []))
      {| ui.symbol := "RELIANCE.NS"; ui.start_date := 1; ui.end_date := 20;
         ui.short_window := 5; ui.long_window := 10 |} [] ∅
    = Ok (((), [ui.st_title "Backtest Moving‑Average Strategy on NSE Stocks";
                ui.st_markdown ui.intro_text;
                ui.st_spinner "Downloading data...";
                ui.st_error "No data returned for the selected period."]),
          h1).
Proof.
  eexists.
  apply (app_reports_no_data pd.pad (λ _ _ _, alloc (frame_of [] [])) _ [] ∅
           (fresh (dom (∅ : gmap nat DataFrame))) _ (frame_of [] [])).
  - simpl. lia.
  - simpl. lia.
  - reflexivity.
  - apply lookup_insert_eq.
  - by left.
Defined.

(** ** The results *)

Lemma compounded_lookup l d h name col :
  h !! l = Some d → columns d !! name = Some col →
  compounded l name h
  = Ok (fsub (pd.prod (pd.add_scalar col (of_Z 1))) (of_Z 1), h).
Proof.
  intros Hl Hcol. unfold compounded.
  by rewrite (bind_ok _ _ _ _ _ (getitem_lookup l d h name col Hl Hcol)).
Qed.

(** X14. Valid inputs and a well-formed download with at least one row:
    [app] raises nothing.  It charts the closes, calls the engine on the
    download, which it leaves unchanged, and shows the two compounded
    returns of the engine's result times 100 and the last five rows of
    the six displayed columns, between the fixed texts. *)
Theorem app_shows_results fm load_data inputs page h data h1 d close :
  (ui.start_date inputs < ui.end_date inputs)%Z →
  ui.short_window inputs < ui.long_window inputs →
  load_data (ui.symbol inputs) (ui.start_date inputs) (ui.end_date inputs) h
  = Ok (data, h1) →
  h1 !! data = Some d → well_formed d close → index d ≠ [] →
  ∃ r h2 out bh sr,
    compute_strategy fm data (ui.short_window inputs) (ui.long_window inputs)
      h1 = Ok (r, h2) ∧
    h2 !! r = Some out ∧
    h2 !! data = Some d ∧
    buy_and_hold r h2 = Ok (bh, h2) ∧
    strategy_ret r h2 = Ok (sr, h2) ∧
    ui.app fm load_data inputs page h
    = Ok (((), page ++
             [ui.st_title "Backtest Moving‑Average Strategy on NSE Stocks";
              ui.st_markdown ui.intro_text;
              ui.st_spinner "Downloading data...";
              ui.st_subheader "Price Chart";
              ui.st_line_chart close;
              ui.st_subheader "Backtest Results";
              ui.st_write "Buy and Hold Return" (fmul bh (of_Z 100));
              ui.st_write "Strategy Return" (fmul sr (of_Z 100));
              ui.st_dataframe (ui.tail (index d))
                ((λ name, (name, ui.tail (default [] (columns out !! name))))
                   <$> ui.shown);
              ui.st_markdown ui.notes_text]), h2).
Proof.
  intros Hdates Hwindows Hload Hdata Hwf Hrows.
  pose proof Hwf as (Hclose & Hlen & Hnd).
  set (sw := ui.short_window inputs). set (lw := ui.long_window inputs).
  set (out := annotate fm d close sw lw).
  set (r := fresh (dom h1)).
  set (h2 := <[r := out]> h1).
  assert (compute_strategy fm data sw lw h1 = Ok (r, h2)) as Hrun
    by (by apply compute_strategy_ok).
  assert (h2 !! r = Some out) as Hout
    by (unfold h2; by rewrite lookup_insert_eq).
  assert (h2 !! data = Some d) as Hsame.
  { pose proof (is_fresh (dom h1)) as Hfresh.
    apply not_elem_of_dom in Hfresh.
    unfold h2. rewrite lookup_insert_ne; [done|]. intros E.
    fold r in Hfresh. congruence. }
  assert (columns out !! "pct_change" = Some (pct_column fm close)) as Hpct
    by (unfold out, annotate; solve_column).
  assert (columns out !! "strategy_return"
          = Some (return_column fm sw lw close)) as Hsr
    by (unfold out, annotate; solve_column).
  pose proof (compounded_lookup r out h2 _ _ Hout Hpct) as Hbh.
  pose proof (compounded_lookup r out h2 _ _ Hout Hsr) as Hst.
  eexists r, h2, out, _, _.
  split; [done|]. split; [done|]. split; [done|].
  split; [exact Hbh|]. split; [exact Hst|].
  unfold ui.app.
  rewrite (app_bind_ok _ _ _ _ _ _ _ (emit_ok _ _ _)).
  rewrite (app_bind_ok _ _ _ _ _ _ _ (emit_ok _ _ _)).
  rewrite !bool_decide_eq_false_2 by lia.
  rewrite (app_bind_ok _ _ _ _ _ _ _ (emit_ok _ _ _)).
  rewrite (app_bind_ok _ _ _ _ _ _ _ (run_ok _ _ _ _ _ Hload)).
  rewrite (app_bind_ok _ _ _ _ _ _ _
             (run_ok _ _ _ _ _ (empty_lookup data d h1 Hdata))).
  rewrite bool_decide_eq_false_2.
  2:{ intros [Hz|Hz].
      - by apply length_zero_iff_nil in Hz.
      - by rewrite Hz, lookup_empty in Hclose. }
  rewrite (app_bind_ok _ _ _ _ _ _ _ (emit_ok _ _ _)).
  rewrite (app_bind_ok _ _ _ _ _ _ _
             (run_ok _ _ _ _ _
                (getitem_lookup data d h1 "close" close Hdata Hclose))).
  rewrite (app_bind_ok _ _ _ _ _ _ _ (emit_ok _ _ _)).
  fold sw lw.
  rewrite (app_bind_ok _ _ _ _ _ _ _ (run_ok _ _ _ _ _ Hrun)).
  rewrite (app_bind_ok _ _ _ _ _ _ _ (emit_ok _ _ _)).
  rewrite (app_bind_ok _ _ _ _ _ _ _ (run_ok _ _ _ _ _ Hbh)).
  rewrite (app_bind_ok _ _ _ _ _ _ _ (run_ok _ _ _ _ _ Hst)).
  rewrite (app_bind_ok _ _ _ _ _ _ _ (emit_ok _ _ _)).
  rewrite (app_bind_ok _ _ _ _ _ _ _ (emit_ok _ _ _)).
  assert (∀ name, name ∈ ui.shown → is_Some (columns out !! name)) as Hall.
  { intros name Hname. unfold ui.shown in Hname.
    repeat (apply elem_of_cons in Hname as [->|Hname]);
      [..|by apply elem_of_nil in Hname];
      eexists; unfold out, annotate; solve_column. }
  rewrite (app_bind_ok _ _ _ _ _ _ _
             (run_ok _ _ _ _ _ (getitems_lookup r out h2 ui.shown Hout Hall))).
  rewrite (app_bind_ok _ _ _ _ _ _ _
             (run_ok _ _ _ _ _ (index_of_lookup r out h2 Hout))).
  rewrite (app_bind_ok _ _ _ _ _ _ _ (emit_ok _ _ _)).
  rewrite emit_ok. rewrite <-!app_assoc. simpl. done.
Qed.

Lemma app_shows_results_witness :
  ∃ page h2,
    ui.app pd.pad (λ _ _ _, alloc rising_frame)
      {| ui.symbol := "RELIANCE.NS"; ui.start_date := 1; ui.end_date := 20;
         ui.short_window := 5; ui.long_window := 10 |} [] ∅
    = Ok (((), page), h2) ∧
    page !! 4 = Some (ui.st_line_chart (of_Z <$> rising_closes)) ∧
    length page = 10.
Proof.
  destruct (app_shows_results pd.pad (λ _ _ _, alloc rising_frame)
              {| ui.symbol := "RELIANCE.NS"; ui.start_date := 1;
                 ui.end_date := 20;
                 ui.short_window := 5; ui.long_window := 10 |} [] ∅
              (fresh (dom (∅ : gmap nat DataFrame)))
              (<[fresh (dom (∅ : gmap nat DataFrame)) := rising_frame]> ∅)
              rising_frame (of_Z <$> rising_closes))
    as (r & h2 & out & bh & sr & _ & _ & _ & _ & _ & Hpage).
  - simpl. lia.
  - simpl. lia.
  - reflexivity.
  - apply lookup_insert_eq.
  - exact rising_frame_well_formed.
  - discriminate.
  - eexists _, h2. split; [exact Hpage|]. split; reflexivity.
Defined.

(** X15. Results only for a valid run: when [app] returns with the
    results heading on a page that did not have it, the dates were in
    order, the short window was below the long one, and the download it
    ran held at least one row and one column. *)
Theorem app_results_only_when_valid fm load_data inputs page h page' h' :
  ui.app fm load_data inputs page h = Ok (((), page'), h') →
  ui.st_subheader "Backtest Results" ∈ page' →
  ui.st_subheader "Backtest Results" ∉ page →
  (ui.start_date inputs < ui.end_date inputs)%Z ∧
  ui.short_window inputs < ui.long_window inputs ∧
  ∃ data h1 d,
    load_data (ui.symbol inputs) (ui.start_date inputs) (ui.end_date inputs) h
    = Ok (data, h1) ∧
    h1 !! data = Some d ∧ index d ≠ [] ∧ columns d ≠ ∅.
Proof.
  intros Happ Hin Hnot.
  assert (∀ extra, page' = page ++ extra →
            Forall (λ x, x ≠ ui.st_subheader "Backtest Results") extra →
            False) as Hreject.
  { intros extra -> Hextra. apply elem_of_app in Hin as [Hin|Hin]; [done|].
    rewrite Forall_forall in Hextra. by apply (Hextra _ Hin). }
  unfold ui.app in Happ.
  rewrite (app_bind_ok _ _ _ _ _ _ _ (emit_ok _ _ _)) in Happ.
  rewrite (app_bind_ok _ _ _ _ _ _ _ (emit_ok _ _ _)) in Happ.
  case_bool_decide as Hdates.
  { rewrite emit_ok, <-!app_assoc in Happ. simplify_eq/=.
    destruct (Hreject _ eq_refl). by repeat constructor. }
  case_bool_decide as Hwindows.
  { rewrite emit_ok, <-!app_assoc in Happ. simplify_eq/=.
    destruct (Hreject _ eq_refl). by repeat constructor. }
  split; [lia|]. split; [lia|].
  rewrite (app_bind_ok _ _ _ _ _ _ _ (emit_ok _ _ _)) in Happ.
  destruct (load_data (ui.symbol inputs) (ui.start_date inputs)
              (ui.end_date inputs) h) as [[data h1]|e] eqn:Hload.
  2:{ by rewrite (app_bind_err _ _ _ _ _ (run_err _ _ _ _ Hload)) in Happ. }
  rewrite (app_bind_ok _ _ _ _ _ _ _ (run_ok _ _ _ _ _ Hload)) in Happ.
  destruct (h1 !! data) as [d|] eqn:Hdata.
  2:{ rewrite (app_bind_err _ _ _ _ Dangling) in Happ; [done|].
      apply run_err. unfold ui.empty, mbind, M_bind, deref.
      by rewrite Hdata. }
  rewrite (app_bind_ok _ _ _ _ _ _ _
             (run_ok _ _ _ _ _ (empty_lookup data d h1 Hdata))) in Happ.
  case_bool_decide as Hempty.
  { rewrite emit_ok, <-!app_assoc in Happ. simplify_eq/=.
    destruct (Hreject _ eq_refl). by repeat constructor. }
  exists data, h1, d. split; [done|]. split; [done|].
  split; [intros E|intros E]; apply Hempty; [left|right]; by rewrite E.
Qed.

Lemma app_results_only_when_valid_witness :
  ∃ data h1 d,
    alloc rising_frame ∅ = Ok (data, h1) ∧
    h1 !! data = Some d ∧ index d ≠ [] ∧ columns d ≠ ∅.
Proof.
  assert (∃ page' h',
            ui.app pd.pad (λ _ _ _, alloc rising_frame)
              {| ui.symbol := "RELIANCE.NS"; ui.start_date := 1;
                 ui.end_date := 20;
                 ui.short_window := 5; ui.long_window := 10 |} [] ∅
            = Ok (((), page'), h') ∧
            ui.st_subheader "Backtest Results" ∈ page')
    as (page' & h' & Happ & Hin).
  { eexists _, _. split; [vm_compute; reflexivity|]. by_evaluation. }
  destruct (app_results_only_when_valid pd.pad (λ _ _ _, alloc rising_frame)
              _ [] ∅ page' h' Happ Hin) as (_ & _ & Hdata).
  - apply not_elem_of_nil.
  - exact Hdata.
Defined.

(** X16. A download with rows and columns but no [close] column (the
    names that [load_data] left are not the ones [app] reads): [app]
    raises [KeyError] when it reads the column for the chart, before the
    engine is called. *)
Theorem app_needs_close_column fm load_data inputs page h data h1 d :
  (ui.start_date inputs < ui.end_date inputs)%Z →
  ui.short_window inputs < ui.long_window inputs →
  load_data (ui.symbol inputs) (ui.start_date inputs) (ui.end_date inputs) h
  = Ok (data, h1) →
  h1 !! data = Some d →
  index d ≠ [] → columns d ≠ ∅ → columns d !! "close" = None →
  ui.app fm load_data inputs page h = Err KeyError.
Proof.
  intros Hdates Hwindows Hload Hdata Hrows Hcols Hnone. unfold ui.app.
  rewrite (app_bind_ok _ _ _ _ _ _ _ (emit_ok _ _ _)).
  rewrite (app_bind_ok _ _ _ _ _ _ _ (emit_ok _ _ _)).
  rewrite !bool_decide_eq_false_2 by lia.
  rewrite (app_bind_ok _ _ _ _ _ _ _ (emit_ok _ _ _)).
  rewrite (app_bind_ok _ _ _ _ _ _ _ (run_ok _ _ _ _ _ Hload)).
  rewrite (app_bind_ok _ _ _ _ _ _ _
             (run_ok _ _ _ _ _ (empty_lookup data d h1 Hdata))).
  rewrite bool_decide_eq_false_2.
  2:{ intros [Hz|Hz]; [by apply length_zero_iff_nil in Hz|done]. }
  rewrite (app_bind_ok _ _ _ _ _ _ _ (emit_ok _ _ _)).
  apply app_bind_err, run_err.
  unfold getitem, mbind, M_bind, deref. by rewrite Hdata, Hnone.
Qed.

Lemma app_needs_close_column_witness :
  ui.app pd.pad
    (λ _ _ _, alloc {| index := [1]%Z; columns := {["Close" := [of_Z 7]]} |})
    {| ui.symbol := "RELIANCE.NS"; ui.start_date := 1; ui.end_date := 20;
       ui.short_window := 5; ui.long_window := 10 |} [] ∅
  = Err KeyError.
Proof.
  apply (app_needs_close_column pd.pad _ _ [] ∅
           (fresh (dom (∅ : gmap nat DataFrame)))
           (<[fresh (dom (∅ : gmap nat DataFrame)) :=
                {| index := [1]%Z; columns := {["Close" := [of_Z 7]]} |}]> ∅)
           {| index := [1]%Z; columns := {["Close" := [of_Z 7]]} |}).
  - simpl. lia.
  - simpl. lia.
  - reflexivity.
  - apply lookup_insert_eq.
  - discriminate.
  - simpl. intros E.
    by apply (f_equal (λ m : gmap string (list float), m !! "Close")) in E.
  - reflexivity.
Defined.

(** * Signals on consecutive dates, and what they do to the position *)

Lemma flt_fle_false x y : flt x y → fle y x → False.
Proof.
  destruct x, y; simpl; try done.
  rewrite !bool_decide_spec. intros Hlt Hle.
  by apply (Qclt_not_le _ _ Hlt).
Qed.

(** A BUY today leaves the short average above the long one, so
    tomorrow's test "was at or below" fails; likewise for SELL. *)
Lemma signal_at_not_twice ss sl i :
  (signal_at ss sl i = BUY → signal_at ss sl (S i) ≠ BUY) ∧
  (signal_at ss sl i = SELL → signal_at ss sl (S i) ≠ SELL).
Proof.
  pose proof BUY_neq_NONE. pose proof SELL_neq_NONE. pose proof BUY_neq_SELL.
  destruct i as [|j]; [split; simpl; congruence|].
  unfold signal_at.
  destruct (ss !! S (S j)) as [cs2|]; [|split; congruence].
  destruct (sl !! S (S j)) as [cl2|]; [|split; congruence].
  destruct (ss !! S j) as [cs|]; [|split; congruence].
  destruct (sl !! S j) as [cl|]; [|split; congruence].
  destruct (ss !! j) as [ps|], (sl !! j) as [pl|];
    try (split; intros; congruence).
  unfold fgt, fge.
  pose proof (flt_fle_false cl cs) as Hup.
  pose proof (flt_fle_false cs cl) as Hdown.
  pose proof (flt_asym cs cl) as Hasym.
  destruct (pd.notnull cs && pd.notnull cl),
    (pd.notnull cs2 && pd.notnull cl2),
    (flt cl cs), (fle cs cl), (flt cs cl), (fle cl cs),
    (flt cl2 cs2), (flt cs2 cl2), (fle ps pl), (fle pl ps);
    simpl in *; split; intros; try congruence; tauto.
Qed.

Lemma foldl_step_lookup (sigs : list Signal) i s :
  sigs !! i = Some s →
  foldl next_position Flat (take (S i) sigs)
  = next_position (foldl next_position Flat (take i sigs)) s.
Proof. intros Hs. by rewrite (take_S_r _ _ _ Hs), foldl_snoc. Qed.

(** X17. What a signal does: the position is LONG on every BUY date and
    FLAT on every SELL date; and the same signal never occurs on two
    consecutive dates. *)
Theorem signal_sets_position fm h l d close sw lw :
  h !! l = Some d → well_formed d close →
  ∃ out, returns fm h l sw lw out ∧
    ∀ i,
      (cell_at out "signal" i = Some BUY →
       cell_at out "position" i = Some LONG ∧
       cell_at out "signal" (S i) ≠ Some BUY) ∧
      (cell_at out "signal" i = Some SELL →
       cell_at out "position" i = Some FLAT ∧
       cell_at out "signal" (S i) ≠ Some SELL).
Proof.
  intros Hl Hwf.
  destruct (compute_strategy_columns fm h l d close sw lw Hl Hwf)
    as (out & Hret & _ & _ & _ & _ & Hsg & Hpos & _).
  exists out. split; [done|]. intros i.
  rewrite !(cell_at_column out _ _ _ Hsg), !(cell_at_column out _ _ _ Hpos).
  destruct (signal_column_codes sw lw close) as [sigs Hsigs].
  assert (length sigs = length close) as Hlen.
  { by rewrite <-(length_signal_column sw lw close), Hsigs, length_fmap. }
  assert (∀ s, signal_column sw lw close !! i = Some (signal_code s) →
            i < length close ∧
            position_column sw lw close !! i
            = Some (position_code
                      (next_position
                         (foldl next_position Flat (take i sigs)) s)))
    as Hstep.
  { intros s Hs.
    assert (i < length close) as Hi.
    { apply lookup_lt_Some in Hs. by rewrite length_signal_column in Hs. }
    split; [done|]. unfold position_column.
    rewrite Hsigs in Hs |- *. rewrite (lookup_carry_forward Flat) by lia.
    rewrite list_lookup_fmap in Hs.
    destruct (sigs !! i) as [t|] eqn:Ht; simplify_eq/=.
    apply signal_code_inj in Hs as ->.
    by rewrite (foldl_step_lookup sigs i s Ht). }
  assert (∀ x, signal_column sw lw close !! i = Some x →
            x = signal_at (pd.rolling_mean sw close)
                  (pd.rolling_mean lw close) i) as Hat.
  { intros x Hx.
    assert (i < length close) as Hi.
    { apply lookup_lt_Some in Hx. by rewrite length_signal_column in Hx. }
    rewrite lookup_signal_column in Hx by done. by simplify_eq. }
  assert (∀ x, signal_at (pd.rolling_mean sw close)
                 (pd.rolling_mean lw close) (S i) ≠ x →
            signal_column sw lw close !! S i ≠ Some x) as Hnext.
  { intros x Hx Hsome.
    assert (S i < length close) as Hi.
    { apply lookup_lt_Some in Hsome.
      by rewrite length_signal_column in Hsome. }
    rewrite lookup_signal_column in Hsome by done. by simplify_eq. }
  destruct (signal_at_not_twice (pd.rolling_mean sw close)
              (pd.rolling_mean lw close) i) as [Hbuy Hsell].
  split; intros Hs.
  - split; [by destruct (Hstep Buy Hs) as [_ ->]|].
    apply Hnext, Hbuy. symmetry. by apply Hat.
  - split; [by destruct (Hstep Sell Hs) as [_ ->]|].
    apply Hnext, Hsell. symmetry. by apply Hat.
Qed.

Lemma returns_unique fm h l sw lw out out' :
  returns fm h l sw lw out → returns fm h l sw lw out' → out = out'.
Proof.
  intros (r & h1 & Hrun & Hout) (r' & h1' & Hrun' & Hout'). congruence.
Qed.

Lemma signal_sets_position_witness :
  ∃ out, returns pd.pad {[0 := crossover_frame]} 0 2 3 out ∧
    cell_at out "signal" 5 = Some BUY ∧
    cell_at out "position" 5 = Some LONG ∧
    cell_at out "signal" 6 ≠ Some BUY.
Proof.
  destruct (signal_sets_position pd.pad {[0 := crossover_frame]} 0
              crossover_frame (of_Z <$> crossover_closes) 2 3)
    as (out & Hret & Hsig).
  - reflexivity.
  - exact crossover_frame_well_formed.
  - exists out. split; [exact Hret|].
    assert (cell_at out "signal" 5 = Some BUY) as Hbuy.
    { destruct (compute_strategy_columns pd.pad {[0 := crossover_frame]} 0
                  crossover_frame (of_Z <$> crossover_closes) 2 3
                  (lookup_only_frame _) crossover_frame_well_formed)
        as (out' & Hret' & _ & _ & _ & _ & Hsg & _).
      rewrite (returns_unique _ _ _ _ _ _ _ Hret Hret').
      rewrite (cell_at_column out' _ _ _ Hsg). by_evaluation. }
    split; [exact Hbuy|]. by apply (Hsig 5).
Defined.

Lemma buy_and_hold_annotate fm h l d close sw lw :
  h !! l = Some d → well_formed d close →
  buy_and_hold (fresh (dom h))
    (<[fresh (dom h) := annotate fm d close sw lw]> h)
  = Ok (fsub (pd.prod (pd.add_scalar (pct_column fm close) (of_Z 1)))
          (of_Z 1),
        <[fresh (dom h) := annotate fm d close sw lw]> h).
Proof.
  intros Hl Hwf. apply (compounded_lookup _ (annotate fm d close sw lw)).
  - by rewrite lookup_insert_eq.
  - unfold annotate. solve_column.
Qed.

(** X18. The baseline does not depend on the windows: the buy-and-hold
    figure and the whole [pct_change] column of the result are the same
    for any two pairs of windows. *)
Theorem buy_and_hold_ignores_windows fm h l d close sw lw sw' lw' :
  h !! l = Some d → well_formed d close →
  ∃ r h1 h2 out1 out2 bh,
    compute_strategy fm l sw lw h = Ok (r, h1) ∧
    compute_strategy fm l sw' lw' h = Ok (r, h2) ∧
    h1 !! r = Some out1 ∧ h2 !! r = Some out2 ∧
    columns out1 !! "pct_change" = columns out2 !! "pct_change" ∧
    buy_and_hold r h1 = Ok (bh, h1) ∧
    buy_and_hold r h2 = Ok (bh, h2).
Proof.
  intros Hl Hwf. pose proof Hwf as (Hclose & Hlen & Hnd).
  eexists (fresh (dom h)), _, _, (annotate fm d close sw lw),
    (annotate fm d close sw' lw'), _.
  split; [by apply compute_strategy_ok|].
  split; [by apply compute_strategy_ok|].
  split; [by rewrite lookup_insert_eq|].
  split; [by rewrite lookup_insert_eq|].
  split; [unfold annotate; by solve_column|].
  split; by apply (buy_and_hold_annotate fm h l).
Qed.

Lemma buy_and_hold_ignores_windows_witness :
  ∃ r h1 h2 bh,
    compute_strategy pd.pad 0 2 3 {[0 := crossover_frame]} = Ok (r, h1) ∧
    compute_strategy pd.pad 0 5 10 {[0 := crossover_frame]} = Ok (r, h2) ∧
    buy_and_hold r h1 = Ok (bh, h1) ∧
    buy_and_hold r h2 = Ok (bh, h2).
Proof.
  destruct (buy_and_hold_ignores_windows pd.pad {[0 := crossover_frame]} 0
              crossover_frame (of_Z <$> crossover_closes) 2 3 5 10)
    as (r & h1 & h2 & out1 & out2 & bh & H1 & H2 & _ & _ & _ & B1 & B2).
  - reflexivity.
  - exact crossover_frame_well_formed.
  - exists r, h1, h2, bh. repeat split; assumption.
Defined.
